(** * Shape and order inference of [Pooling2D] (webdnn graph transpiler)

    A shallow embedding of
    [src/graph_transpiler/webdnn/graph/operators/pooling_2d.py] and of the
    test driver [test/webdnn_test/graph_test/operators_test/deconvolution2d_test.py],
    together with the parts of the IR they call ([Axis], [Order], [Variable],
    [Operator], [to_tuple], [Deconvolution2D]) that live in other modules of
    the package.

    Python integers are unbounded, so sizes are [Z]; [//] and [%] are floor
    division and its remainder, which is what [Z.div] and [Z.modulo] compute,
    except that Python raises [ZeroDivisionError] on a zero divisor.
    Dictionaries are [gmap]s.  A method that mutates [self], writes to the
    console or raises is a computation in the monad [M] below. *)

From stdpp Require Import gmap strings list fin_maps.
From Stdlib Require Import ZArith Lia.

Local Open Scope Z_scope.

(** ** Axes *)

(** Modelled from the spec: [webdnn.graph.axis.Axis] is not part of the
    excerpt.  The spec describes a small vocabulary N (batch), H (height),
    W (width), C (channel) "plus any future labels", compared by label;
    [Ext k] stands for the labels beyond the four that the operators name. *)
Module Axis.

Inductive t : Set := N | H | W | C | Ext (k : nat).

#[global] Instance eq_dec : EqDecision t.
Proof. solve_decision. Defined.

Definition to_nat (a : t) : nat :=
  match a with
  | N => 0 | H => 1 | W => 2 | C => 3
  | Ext k => 4 + k
  end%nat.

Definition of_nat (n : nat) : t :=
  match n with
  | 0 => N | 1 => H | 2 => W | 3 => C
  | S (S (S (S k))) => Ext k
  end%nat.

Lemma of_to_nat (a : t) : of_nat (to_nat a) = a.
Proof. by destruct a. Qed.

#[global] Instance countable : Countable t :=
  inj_countable' to_nat of_nat of_to_nat.

End Axis.

(** ** Exceptions *)

(** The exceptions of the package named by the spec, and the built-in ones
    that the arithmetic and the dictionary look-ups of [exec] and the
    statements of the test driver raise. *)
Inductive Error : Set :=
| KeyError (key : string)          (* [d[k]] on a [str]-keyed dict *)
| AxisLookupError (axis : Axis.t)  (* [d[axis]] on a shape dictionary *)
| ZeroDivisionError                (* [//] or [%] by zero *)
| InvalidOrderError
| ShapeOrderMismatchError
| AxisSetMismatchError
| InvalidParameterError
| IncompatibleShapeError
| DuplicateSlotError
| ValueError                       (* unpacking a tuple of the wrong length *)
| AssertionError.                  (* a failed [assert] *)

Inductive Result (A : Type) : Type :=
| Ok (a : A)
| Err (e : Error).
Arguments Ok {A} a.
Arguments Err {A} e.

Definition is_Ok {A} (r : Result A) : bool :=
  match r with Ok _ => true | Err _ => false end.

Definition Result_bind {A B} (r : Result A) (f : A → Result B) : Result B :=
  match r with
  | Ok a => f a
  | Err e => Err e
  end.

(** ** Orders *)

(** Modelled from the spec: [webdnn.graph.order] is not part of the excerpt.
    An order is a sequence of pairwise distinct axes; the constructor
    rejects a repeated axis with [InvalidOrderError]. *)
Record Order : Set := mkOrder { axes : list Axis.t }.

#[global] Instance Order_eq_dec : EqDecision Order.
Proof. solve_decision. Defined.

Definition Order_new (l : list Axis.t) : Result Order :=
  if decide (NoDup l) then Ok (mkOrder l) else Err InvalidOrderError.

(** The invariant that [Order_new] establishes. *)
Definition Order_wf (o : Order) : Prop := NoDup (axes o).

(** The six named orders over {N, H, W, C} that the test driver imports. *)
Definition OrderNHWC : Order := mkOrder [Axis.N; Axis.H; Axis.W; Axis.C].
Definition OrderHWNC : Order := mkOrder [Axis.H; Axis.W; Axis.N; Axis.C].
Definition OrderHWCN : Order := mkOrder [Axis.H; Axis.W; Axis.C; Axis.N].
Definition OrderNCHW : Order := mkOrder [Axis.N; Axis.C; Axis.H; Axis.W].
Definition OrderCNHW : Order := mkOrder [Axis.C; Axis.N; Axis.H; Axis.W].
Definition OrderCHWN : Order := mkOrder [Axis.C; Axis.H; Axis.W; Axis.N].

(** ** Variables *)

(** Modelled from the spec: [webdnn.graph.variable.Variable] is not part of
    the excerpt ([Variable] is a reserved word here, hence [VariableT]).  A
    variable is a shape (one integer per physical dimension) tagged with an
    order; [Variable(shape, order)] fails with [ShapeOrderMismatchError] when
    the lengths differ and checks nothing else. *)
Record VariableT : Set := mkVariable { shape : list Z; order : Order }.

#[global] Instance Variable_eq_dec : EqDecision VariableT.
Proof. solve_decision. Defined.

Definition Variable_new (shape : list Z) (order : Order) : Result VariableT :=
  if decide (length shape = length (axes order))
  then Ok (mkVariable shape order)
  else Err ShapeOrderMismatchError.

(** The invariant of a constructed variable whose order is well formed. *)
Definition Variable_wf (v : VariableT) : Prop :=
  length (shape v) = length (axes (order v)) ∧ Order_wf (order v).

(** Modelled from the spec: [shape_dict] is the mapping logical axis -> size,
    a pure function of the current shape and order. *)
Definition shape_dict (v : VariableT) : gmap Axis.t Z :=
  list_to_map (zip (axes (order v)) (shape v)).

(** Modelled from the spec: [d[axis]] on a shape dictionary gives the size
    of an axis of the order and raises for an axis that is absent.  The
    dictionary type is not part of the excerpt, so the class of that
    exception is not known here; [AxisLookupError] stands for it. *)
Definition getitem (d : gmap Axis.t Z) (axis : Axis.t) : Result Z :=
  match d !! axis with
  | Some n => Ok n
  | None => Err (AxisLookupError axis)
  end.

Fixpoint lookup_all (d : gmap Axis.t Z) (l : list Axis.t) : Result (list Z) :=
  match l with
  | [] => Ok []
  | a :: l' =>
      Result_bind (getitem d a) (λ n,
      Result_bind (lookup_all d l') (λ ns, Ok (n :: ns)))
  end.

(** Modelled from the spec: [change_order(new_order)] fails with
    [AxisSetMismatchError] if the axis sets differ; otherwise the new shape is
    obtained by looking up, for each axis of [new_order], its size in the old
    [shape_dict], and the variable's order and shape are replaced.  The
    in-place update of the Python object is the returned record: a variable
    is re-ordered here only by the operator that has just created it. *)
Definition change_order (new_order : Order) (v : VariableT) : Result VariableT :=
  let old_shape_dict := shape_dict v in
  if decide (axes (order v) ⊆ axes new_order ∧ axes new_order ⊆ axes (order v))
  then Result_bind (lookup_all old_shape_dict (axes new_order))
                   (λ new_shape, Ok (mkVariable new_shape new_order))
  else Err AxisSetMismatchError.

(** ** Operators *)

(** Modelled from the spec: [webdnn.graph.operators.attributes.tensorwise] is
    not part of the excerpt.  [Tensorwise(op, axis)] tags the operator [op]
    as acting independently along [axis]; the attribute sits in the
    attribute set of the operator it refers to, so only the axis is kept. *)
Inductive Attribute : Set := Tensorwise (axis : Axis.t).

#[global] Instance Attribute_eq_dec : EqDecision Attribute.
Proof. solve_decision. Defined.

(** Modelled from the spec: [webdnn.graph.operator.Operator] is not part of
    the excerpt.  An operator has an optional name, named inputs and outputs,
    a parameter dictionary and a set of attributes.  Attribute objects are
    compared by identity, so adding one always enlarges the set: the set is
    kept as the list of the attributes added, oldest first. *)
Record Operator : Type := mkOperator {
  name : option string;
  parameters : gmap string (Z * Z);
  inputs : gmap string VariableT;
  outputs : gmap string VariableT;
  attributes : list Attribute
}.

(** [Operator.__init__(name)]. *)
Definition Operator_init (nm : option string) : Operator :=
  mkOperator nm ∅ ∅ ∅ [].

(** [op.parameters[key] = v]. *)
Definition set_parameter (key : string) (v : Z * Z) (op : Operator) : Operator :=
  mkOperator (name op) (<[key := v]> (parameters op)) (inputs op) (outputs op)
             (attributes op).

(** What a method can touch: the operator it is called on and the console. *)
Record World : Type := mkWorld { self : Operator; console : list string }.

(** A method either returns a value or raises; the world it leaves behind
    is observable in both cases. *)
Definition M (A : Type) : Type := World → Result A * World.

#[global] Instance M_ret : MRet M := λ A a w, (Ok a, w).
#[global] Instance M_bind : MBind M := λ A B f m w,
  match m w with
  | (Ok a, w') => f a w'
  | (Err e, w') => (Err e, w')
  end.

Definition raise {A} (e : Error) : M A := λ w, (Err e, w).

Definition lift {A} (r : Result A) : M A := λ w, (r, w).

Definition get_self : M Operator := λ w, (Ok (self w), w).

Definition set_self (op : Operator) : M unit :=
  λ w, (Ok tt, mkWorld op (console w)).

(** [console.warning(message)]. *)
Definition console_warning (message : string) : M unit :=
  λ w, (Ok tt, mkWorld (self w) (console w ++ [message])).

(** [for a in l: body(a)]. *)
Fixpoint for_each {A} (l : list A) (body : A → M unit) : M unit :=
  match l with
  | [] => mret tt
  | a :: l' => body a ;; for_each l' body
  end.

(** [a // b] and [a % b]. *)
Definition floordiv (a b : Z) : M Z :=
  if decide (b = 0) then raise ZeroDivisionError else mret (a / b).

Definition pymod (a b : Z) : M Z :=
  if decide (b = 0) then raise ZeroDivisionError else mret (a mod b).

(** [self.parameters[key]] and [self.inputs[slot]]. *)
Definition get_parameter (key : string) : M (Z * Z) :=
  op ← get_self;
  match parameters op !! key with
  | Some v => mret v
  | None => raise (KeyError key)
  end.

Definition get_input (slot : string) : M VariableT :=
  op ← get_self;
  match inputs op !! slot with
  | Some v => mret v
  | None => raise (KeyError slot)
  end.

(** Modelled from the spec: [append_input(slot, variable)] fails with
    [DuplicateSlotError] if the slot is already filled.  (The slot [x] is the
    one slot [Pooling2D] defines, so [SlotNotSupportedError] does not arise.) *)
Definition append_input (slot : string) (v : VariableT) : M unit :=
  op ← get_self;
  match inputs op !! slot with
  | Some _ => raise DuplicateSlotError
  | None =>
      set_self (mkOperator (name op) (parameters op) (<[slot := v]> (inputs op))
                           (outputs op) (attributes op))
  end.

(** Modelled from the spec: [append_output(slot, variable)] attaches a named
    output. *)
Definition append_output (slot : string) (v : VariableT) : M unit :=
  op ← get_self;
  set_self (mkOperator (name op) (parameters op) (inputs op)
                       (<[slot := v]> (outputs op)) (attributes op)).

(** [self.attributes.add(a)]. *)
Definition add_attribute (a : Attribute) : M unit :=
  op ← get_self;
  set_self (mkOperator (name op) (parameters op) (inputs op) (outputs op)
                       (attributes op ++ [a])).

(** ** Pooling2D *)

(** [IntOrTuple = Union[int, Tuple[int, int]]]. *)
Inductive IntOrTuple : Set :=
| IntV (n : Z)
| TupleV (a b : Z).

(** Modelled from the spec: [webdnn.graph.operators.util.to_tuple] is not
    part of the excerpt.  Each of kernel size, stride and padding is "either
    a single integer applied to both spatial dimensions or an explicit
    2-tuple", "normalized internally to a 2-tuple". *)
Definition to_tuple (x : IntOrTuple) : Z * Z :=
  match x with
  | IntV n => (n, n)
  | TupleV a b => (a, b)
  end.

(** [Pooling2D.__init__], over the normaliser it calls.  The three
    parameters go through the same call and nothing else inspects them. *)
Definition Pooling2D_init_with (conv : IntOrTuple → Result (Z * Z))
    (nm : option string) (ksize stride padding : IntOrTuple) : Result Operator :=
  let op := Operator_init nm in
  Result_bind (conv ksize) (λ k,
  let op := set_parameter "ksize" k op in
  Result_bind (conv stride) (λ s,
  let op := set_parameter "stride" s op in
  Result_bind (conv padding) (λ p,
  let op := set_parameter "padding" p op in
  Ok op))).

Definition Pooling2D_init (nm : option string)
    (ksize stride padding : IntOrTuple) : Result Operator :=
  Pooling2D_init_with (λ x, Ok (to_tuple x)) nm ksize stride padding.

(** The properties [ksize], [stride], [padding], [KH], ..., [PW]. *)
Definition ksize : M (Z * Z) := get_parameter "ksize".
Definition stride : M (Z * Z) := get_parameter "stride".
Definition padding : M (Z * Z) := get_parameter "padding".
Definition KH : M Z := t ← ksize; mret t.1.
Definition KW : M Z := t ← ksize; mret t.2.
Definition SH : M Z := t ← stride; mret t.1.
Definition SW : M Z := t ← stride; mret t.2.
Definition PH : M Z := t ← padding; mret t.1.
Definition PW : M Z := t ← padding; mret t.2.

Definition edge_warning : string :=
  "[Pooling2D] Performing pooling with parameters which causes edge is ignored. "
  +:+ "Which edge (left / right) is ignored is different on frameworks,"
  +:+ " so slightly different result will be generated.".

(** The test of the [if] in [exec]; [or] evaluates its right operand only
    when the left one is false. *)
Definition edge_ignored (x_shape_dict : gmap Axis.t Z) : M bool :=
  h ← lift (getitem x_shape_dict Axis.H);
  ph ← PH; kh ← KH; sh ← SH;
  rh ← pymod (h + 2 * ph - kh) sh;
  if decide (rh ≠ 0) then mret true
  else
    w ← lift (getitem x_shape_dict Axis.W);
    pw ← PW; kw ← KW; sw ← SW;
    rw ← pymod (w + 2 * pw - kw) sw;
    mret (bool_decide (rw ≠ 0)).

(** [Pooling2D.exec]. *)
Definition exec : M (list VariableT) :=
  x ← get_input "x";
  let x_shape_dict := shape_dict x in
  N ← lift (getitem x_shape_dict Axis.N);
  h ← lift (getitem x_shape_dict Axis.H);
  ph ← PH; sh ← SH; kh ← KH; sh' ← SH;
  qh ← floordiv (h + 2 * ph + sh - kh - 1) sh';
  let H2 := qh + 1 in
  w ← lift (getitem x_shape_dict Axis.W);
  pw ← PW; sw ← SW; kw ← KW; sw' ← SW;
  qw ← floordiv (w + 2 * pw + sw - kw - 1) sw';
  let W2 := qw + 1 in
  C2 ← lift (getitem x_shape_dict Axis.C);
  warn ← edge_ignored x_shape_dict;
  (if warn : bool then console_warning edge_warning else mret tt) ;;
  y ← lift (Variable_new [N; H2; W2; C2] OrderNHWC);
  y ← lift (change_order (order x) y);
  append_output "y" y ;;
  for_each (axes (order x)) (λ axis,
    if decide (axis = Axis.H ∨ axis = Axis.W) then mret tt
    else add_attribute (Tensorwise axis)) ;;
  mret [y].

(** [Pooling2D.__call__]. *)
Definition Pooling2D_call (x : VariableT) : M (list VariableT) :=
  append_input "x" x ;; exec.

(** [op = Pooling2D(name, ksize, stride, padding); op(x)] on a console that
    shows [log]. *)
Definition Pooling2D_apply (nm : option string)
    (ksize stride padding : IntOrTuple) (x : VariableT) (log : list string)
  : Result (list VariableT) * option World :=
  match Pooling2D_init nm ksize stride padding with
  | Ok op =>
      let r := Pooling2D_call x (mkWorld op log) in (r.1, Some r.2)
  | Err e => (Err e, None)
  end.

(** ** Deconvolution2D and its test driver *)

(** Modelled from the spec: [webdnn.graph.operators.deconvolution2d] is not
    part of the excerpt.  The operator has the parameters of [Pooling2D];
    its constructor rejects a non-positive kernel size, a non-positive
    stride and a negative padding with [InvalidParameterError], before any
    shape arithmetic.  It takes a data input [x] and a weight input [w],
    computes each spatial size as [(in - 1) * stride - 2 * pad + kernel],
    fails with [IncompatibleShapeError] when a computed size is not
    positive, passes the batch size of [x] through, takes the channel count
    from the output-channel axis of [w] (axis N of the canonical C-H-W-N
    weight order), gives the output the order of [x] and adds [Tensorwise]
    for the non-spatial axes of [x]. *)
Definition valid_parameters (k s p : Z * Z) : Prop :=
  0 < k.1 ∧ 0 < k.2 ∧ 0 < s.1 ∧ 0 < s.2 ∧ 0 ≤ p.1 ∧ 0 ≤ p.2.

#[global] Instance valid_parameters_dec k s p : Decision (valid_parameters k s p).
Proof. unfold valid_parameters. apply _. Defined.

Definition Deconvolution2D_init (nm : option string)
    (ksize stride padding : IntOrTuple) : Result Operator :=
  if decide (valid_parameters (to_tuple ksize) (to_tuple stride) (to_tuple padding))
  then Pooling2D_init nm ksize stride padding
  else Err InvalidParameterError.

Definition Deconvolution2D_exec : M (list VariableT) :=
  x ← get_input "x";
  w ← get_input "w";
  let x_shape_dict := shape_dict x in
  let w_shape_dict := shape_dict w in
  N ← lift (getitem x_shape_dict Axis.N);
  h ← lift (getitem x_shape_dict Axis.H);
  sh ← SH; ph ← PH; kh ← KH;
  let H2 := (h - 1) * sh - 2 * ph + kh in
  wd ← lift (getitem x_shape_dict Axis.W);
  sw ← SW; pw ← PW; kw ← KW;
  let W2 := (wd - 1) * sw - 2 * pw + kw in
  C2 ← lift (getitem w_shape_dict Axis.N);
  (if decide (0 < H2 ∧ 0 < W2) then mret tt
   else raise IncompatibleShapeError) ;;
  y ← lift (Variable_new [N; H2; W2; C2] OrderNHWC);
  y ← lift (change_order (order x) y);
  append_output "y" y ;;
  for_each (axes (order x)) (λ axis,
    if decide (axis = Axis.H ∨ axis = Axis.W) then mret tt
    else add_attribute (Tensorwise axis)) ;;
  mret [y].

Definition Deconvolution2D_call (x w : VariableT) : M (list VariableT) :=
  append_input "x" x ;; append_input "w" w ;; Deconvolution2D_exec.

(** [op = Deconvolution2D(name, ksize, stride, padding); op(x, w)]. *)
Definition Deconvolution2D_apply (nm : option string)
    (ksize stride padding : IntOrTuple) (x w : VariableT) (log : list string)
  : Result (list VariableT) * option World :=
  match Deconvolution2D_init nm ksize stride padding with
  | Ok op =>
      let r := Deconvolution2D_call x w (mkWorld op log) in (r.1, Some r.2)
  | Err e => (Err e, None)
  end.

(** The six orders the driver goes through, in its order. *)
Definition orders : list Order :=
  [OrderNHWC; OrderHWNC; OrderHWCN; OrderNCHW; OrderCNHW; OrderCHWN].

(** The body of the loop of [main], up to [y, = op(x, w)]. *)
Definition main_output (k s p : IntOrTuple) (n h1 w1 c1 c2 : Z)
    (order_x order_w : Order) : Result VariableT :=
  Result_bind (Deconvolution2D_init None k s p) (λ op,
  Result_bind (Variable_new [n; h1; w1; c1] OrderNHWC) (λ x,
  Result_bind (change_order order_x x) (λ x,
  Result_bind (ksize (mkWorld op [])).1 (λ op_ksize,
  Result_bind (Variable_new [c1; op_ksize.1; op_ksize.2; c2] OrderCHWN) (λ w,
  Result_bind (change_order order_w w) (λ w,
  Result_bind (Deconvolution2D_call x w (mkWorld op [])).1 (λ ys,
  match ys with
  | [y] => Ok y
  | _ => Err ValueError
  end))))))).

(** [for axis in y.order.axes: assert y.shape_dict[axis] == expected[axis]]. *)
Fixpoint assert_sizes (y : VariableT) (expected_shape_dict : gmap Axis.t Z)
    (l : list Axis.t) : Result unit :=
  match l with
  | [] => Ok tt
  | axis :: l' =>
      Result_bind (getitem (shape_dict y) axis) (λ got,
      Result_bind (getitem expected_shape_dict axis) (λ want,
      if decide (got = want) then assert_sizes y expected_shape_dict l'
      else Err AssertionError))
  end.

Fixpoint Result_for_each {A} (l : list A) (body : A → Result unit) : Result unit :=
  match l with
  | [] => Ok tt
  | a :: l' => Result_bind (body a) (λ _, Result_for_each l' body)
  end.

(** [main] of [deconvolution2d_test.py]; [itertools.product] varies its
    second component fastest. *)
Definition main (k s p : IntOrTuple) (n h1 w1 c1 c2 : Z)
    (expected_shape_dict : gmap Axis.t Z) : Result unit :=
  Result_for_each orders (λ order_x,
  Result_for_each orders (λ order_w,
    Result_bind (main_output k s p n h1 w1 c1 c2 order_x order_w) (λ y,
    assert_sizes y expected_shape_dict (axes (order y))))).

Definition shape_dict_of (n h w c : Z) : gmap Axis.t Z :=
  <[Axis.C := c]> (<[Axis.W := w]> (<[Axis.H := h]> (<[Axis.N := n]> ∅))).

Definition test_normal : Result unit :=
  main (IntV 3) (IntV 1) (IntV 1) 2 3 4 6 5 (shape_dict_of 2 3 4 5).
Definition test_large_stride : Result unit :=
  main (IntV 3) (IntV 2) (IntV 1) 2 3 4 6 3 (shape_dict_of 2 5 7 3).
Definition test_no_padding : Result unit :=
  main (IntV 3) (IntV 1) (IntV 0) 2 3 5 6 3 (shape_dict_of 2 5 7 3).
Definition test_projection : Result unit :=
  main (IntV 1) (IntV 1) (IntV 0) 2 5 7 6 3 (shape_dict_of 2 5 7 3).
Definition test_fully_connected : Result unit :=
  main (TupleV 5 7) (IntV 1) (IntV 0) 2 1 1 6 3 (shape_dict_of 2 5 7 3).

(** Over all pairs of orders: the output has the order of the data input
    and exactly the expected sizes. *)
Definition main_strict (k s p : IntOrTuple) (n h1 w1 c1 c2 : Z)
    (expected_shape_dict : gmap Axis.t Z) : bool :=
  forallb (λ order_x,
    forallb (λ order_w,
      match main_output k s p n h1 w1 c1 c2 order_x order_w with
      | Ok y => bool_decide (order y = order_x ∧ shape_dict y = expected_shape_dict)
      | Err _ => false
      end) orders) orders.

(** ** Vocabulary of the statements *)

(** An operator that went through [__init__] and [append_input]: the input
    slot [x] and the three parameters are set. *)
Record Ready (w : World) (x : VariableT) (k s p : Z * Z) : Prop := {
  ready_input : inputs (self w) !! "x" = Some x;
  ready_ksize : parameters (self w) !! "ksize" = Some k;
  ready_stride : parameters (self w) !! "stride" = Some s;
  ready_padding : parameters (self w) !! "padding" = Some p
}.

(** The axes that get a [Tensorwise] attribute, in the order of the loop. *)
Definition tensorwise_axes (l : list Axis.t) : list Axis.t :=
  filter (λ axis, ¬ (axis = Axis.H ∨ axis = Axis.W)) l.

(** [op] after the attributes [l] were added, after [slot] was given the
    output [y], and after [slot] was given the input [x]. *)
Definition with_attributes (op : Operator) (l : list Attribute) : Operator :=
  mkOperator (name op) (parameters op) (inputs op) (outputs op)
             (attributes op ++ l).

(** The condition under which the warning is printed. *)
Definition edge_cond (h wd : Z) (k s p : Z * Z) : bool :=
  bool_decide ((h + 2 * p.1 - k.1) mod s.1 ≠ 0 ∨ (wd + 2 * p.2 - k.2) mod s.2 ≠ 0).

(** The console after a call of [exec] that got as far as the [if]. *)
Definition warned (h wd : Z) (k s p : Z * Z) (log : list string) : list string :=
  log ++ (if edge_cond h wd k s p then [edge_warning] else []).

Definition with_output (op : Operator) (slot : string) (y : VariableT) : Operator :=
  mkOperator (name op) (parameters op) (inputs op) (<[slot := y]> (outputs op))
             (attributes op).

(** The operator that [Pooling2D(name, ksize, stride, padding)] builds. *)
Definition Pooling2D_op (nm : option string) (k s p : Z * Z) : Operator :=
  set_parameter "padding" p
    (set_parameter "stride" s (set_parameter "ksize" k (Operator_init nm))).

Definition with_input (op : Operator) (slot : string) (x : VariableT) : Operator :=
  mkOperator (name op) (parameters op) (<[slot := x]> (inputs op)) (outputs op)
             (attributes op).

(** The operator after a successful call. *)
Definition Pooling2D_done (nm : option string) (k s p : Z * Z)
    (x y : VariableT) : Operator :=
  with_attributes (with_output (with_input (Pooling2D_op nm k s p) "x" x) "y" y)
                  (Tensorwise <$> tensorwise_axes (axes (order x))).

(** Every way a call can end: a look-up of a missing axis, a division by a
    zero stride, a re-ordering that fails after the warning, or the return
    of the output. *)
Inductive Outcome (nm : option string) (k s p : Z * Z) (x : VariableT)
    (log : list string) : Result (list VariableT) * option World → Prop :=
| Outcome_missing a :
    a ∈ [Axis.N; Axis.H; Axis.W; Axis.C] → shape_dict x !! a = None →
    Outcome nm k s p x log
      (Err (AxisLookupError a),
       Some (mkWorld (with_input (Pooling2D_op nm k s p) "x" x) log))
| Outcome_zero :
    s.1 = 0 ∨ s.2 = 0 →
    Outcome nm k s p x log
      (Err ZeroDivisionError,
       Some (mkWorld (with_input (Pooling2D_op nm k s p) "x" x) log))
| Outcome_mismatch n h wd c :
    shape_dict x !! Axis.N = Some n → shape_dict x !! Axis.H = Some h →
    shape_dict x !! Axis.W = Some wd → shape_dict x !! Axis.C = Some c →
    s.1 ≠ 0 → s.2 ≠ 0 →
    ¬ (axes OrderNHWC ⊆ axes (order x) ∧ axes (order x) ⊆ axes OrderNHWC) →
    Outcome nm k s p x log
      (Err AxisSetMismatchError,
       Some (mkWorld (with_input (Pooling2D_op nm k s p) "x" x)
                     (warned h wd k s p log)))
| Outcome_return n h wd c y :
    shape_dict x !! Axis.N = Some n → shape_dict x !! Axis.H = Some h →
    shape_dict x !! Axis.W = Some wd → shape_dict x !! Axis.C = Some c →
    s.1 ≠ 0 → s.2 ≠ 0 →
    change_order (order x)
      (mkVariable [n; (h + 2 * p.1 + s.1 - k.1 - 1) / s.1 + 1;
                      (wd + 2 * p.2 + s.2 - k.2 - 1) / s.2 + 1; c] OrderNHWC)
    = Ok y →
    Outcome nm k s p x log
      (Ok [y], Some (mkWorld (Pooling2D_done nm k s p x y) (warned h wd k s p log))).

(** An input whose order is one of the arrangements of N, H, W, C and whose
    shape has one size per axis. *)
Definition NHWC_input (x : VariableT) : Prop :=
  axes (order x) ≡ₚ [Axis.N; Axis.H; Axis.W; Axis.C] ∧
  length (shape x) = length (axes (order x)).

(** The spec's words for the output size: [floor((in + 2*pad - stride -
    kernel - 1) / stride) + 1], and the formula it calls equivalent,
    [floor((in + 2*pad - kernel) / stride) + 1]. *)
Definition spec_out_size (i k s p : Z) : Z := (i + 2 * p - s - k - 1) / s + 1.
Definition spec_out_size_alt (i k s p : Z) : Z := (i + 2 * p - k) / s + 1.

(** How many [Tensorwise] attributes scoped to [a] an operator carries. *)
Definition count_tensorwise (a : Axis.t) (op : Operator) : nat :=
  length (filter (λ t, t = Tensorwise a) (attributes op)).

(** * Properties *)

Example change_order_ex :
  change_order OrderCHWN (mkVariable [2; 3; 4; 5] OrderNHWC)
  = Ok (mkVariable [5; 3; 4; 2] OrderCHWN).
Proof. vm_compute. reflexivity. Qed.

(** ** Shape dictionaries and re-ordering *)

Section ShapeDict.

Implicit Types (d : gmap Axis.t Z) (l : list Axis.t) (ns : list Z).
Implicit Types (v : VariableT) (o : Order) (a : Axis.t).

Lemma getitem_Ok d a n : getitem d a = Ok n ↔ d !! a = Some n.
Proof. unfold getitem. destruct (d !! a); split; congruence. Qed.

Lemma getitem_Err d a e :
  getitem d a = Err e ↔ d !! a = None ∧ e = AxisLookupError a.
Proof. unfold getitem. destruct (d !! a); split; intros; intuition congruence. Qed.

Lemma lookup_all_Ok d l ns :
  lookup_all d l = Ok ns ↔ Forall2 (λ a n, d !! a = Some n) l ns.
Proof.
  revert ns. induction l as [|a l IH]; intros ns; simpl.
  - split.
    + intros [= <-]. constructor.
    + intros Hf. by inversion Hf.
  - unfold getitem. destruct (d !! a) as [n|] eqn:Ha; simpl.
    + destruct (lookup_all d l) as [ms|e] eqn:Hl; simpl.
      * split.
        -- intros [= <-]. constructor; [done|]. by apply IH.
        -- intros Hf. inversion Hf as [|? m ? ms' Hm Hms]; subst.
           apply IH in Hms. congruence.
      * split; [done|].
        intros Hf. inversion Hf as [|? m ? ms' Hm Hms]; subst.
        apply IH in Hms. congruence.
    + split; [done|]. intros Hf. inversion Hf; congruence.
Qed.

Lemma lookup_all_is_Ok d l :
  (∀ a, a ∈ l → is_Some (d !! a)) → ∃ ns, lookup_all d l = Ok ns.
Proof.
  induction l as [|a l IH]; intros Hd; simpl; [by eexists|].
  destruct (Hd a) as [n Hn]; [by left|].
  destruct IH as [ns Hns]; [intros; apply Hd; by right|].
  exists (n :: ns). unfold getitem. by rewrite Hn, Hns.
Qed.

(** A dictionary built from keys and the values found for them in [d]
    agrees with [d] on these keys. *)
Lemma list_to_map_zip_lookup d l ns a :
  Forall2 (λ a n, d !! a = Some n) l ns → a ∈ l →
  (list_to_map (zip l ns) : gmap Axis.t Z) !! a = d !! a.
Proof.
  induction 1 as [|a' n l ns Hn _ IH]; intros Ha; [by inversion Ha|].
  simpl. destruct (decide (a' = a)) as [->|Hne].
  - by rewrite lookup_insert_eq.
  - rewrite lookup_insert_ne by done. apply IH.
    inversion Ha; by subst.
Qed.

Lemma list_to_map_zip_None l ns a :
  a ∉ l → (list_to_map (zip l ns) : gmap Axis.t Z) !! a = None.
Proof.
  intros Ha. apply not_elem_of_list_to_map_1.
  intros Hin. apply Ha. apply list_elem_of_fmap in Hin as [[a' n] [-> Hin]].
  by apply elem_of_zip_l in Hin.
Qed.

Lemma shape_dict_is_Some v a :
  length (shape v) = length (axes (order v)) →
  a ∈ axes (order v) → is_Some (shape_dict v !! a).
Proof.
  intros Hlen Ha. unfold shape_dict.
  apply list_elem_of_lookup in Ha as [i Hi].
  destruct (lookup_lt_is_Some_2 (shape v) i) as [n Hn].
  { rewrite Hlen. by eapply lookup_lt_Some. }
  apply not_eq_None_Some. intros Hnone.
  apply not_elem_of_list_to_map in Hnone. apply Hnone.
  apply list_elem_of_fmap. exists (a, n). split; [done|].
  apply list_elem_of_lookup. exists i.
  rewrite lookup_zip_with. by rewrite Hi; simpl; rewrite Hn.
Qed.

Lemma shape_dict_None v a :
  a ∉ axes (order v) → shape_dict v !! a = None.
Proof. apply list_to_map_zip_None. Qed.

(** Reading a well-formed variable's sizes back along its own order gives
    its shape. *)
Lemma shape_dict_own_order v :
  Variable_wf v →
  Forall2 (λ a n, shape_dict v !! a = Some n) (axes (order v)) (shape v).
Proof.
  intros [Hlen Hnd]. unfold shape_dict, Order_wf in *.
  apply Forall2_same_length_lookup_2; [by symmetry|].
  intros i a n Ha Hn.
  apply elem_of_list_to_map_1.
  - rewrite fst_zip; [done|lia].
  - apply list_elem_of_lookup. exists i.
    rewrite lookup_zip_with. by rewrite Ha; simpl; rewrite Hn.
Qed.

(** What a successful [change_order] returns. *)
Lemma change_order_Ok o v v' :
  change_order o v = Ok v' →
  order v' = o ∧
  Forall2 (λ a n, shape_dict v !! a = Some n) (axes o) (shape v') ∧
  (axes (order v) ⊆ axes o ∧ axes o ⊆ axes (order v)).
Proof.
  unfold change_order. case_decide as Hset; [|done].
  destruct (lookup_all _ _) as [ns|e] eqn:Hns; simpl; [|done].
  intros [= <-]. simpl. split; [done|]. split; [|done].
  by apply lookup_all_Ok.
Qed.

(** Re-ordering keeps every logical size. *)
Lemma change_order_shape_dict o v v' :
  change_order o v = Ok v' → shape_dict v' = shape_dict v.
Proof.
  intros (Ho & Hf & H1 & H2)%change_order_Ok.
  apply map_eq. intros a. unfold shape_dict at 1. rewrite Ho.
  destruct (decide (a ∈ axes o)) as [Ha|Ha].
  - by apply list_to_map_zip_lookup.
  - rewrite list_to_map_zip_None by done.
    symmetry. apply shape_dict_None. intros Hin. by apply Ha, H1.
Qed.

(** [change_order] succeeds exactly when the axis sets agree. *)
Lemma change_order_is_Ok o v :
  length (shape v) = length (axes (order v)) →
  axes (order v) ⊆ axes o → axes o ⊆ axes (order v) →
  ∃ v', change_order o v = Ok v'.
Proof.
  intros Hlen H1 H2. unfold change_order.
  rewrite decide_True by done.
  destruct (lookup_all_is_Ok (shape_dict v) (axes o)) as [ns ->].
  { intros a Ha. apply shape_dict_is_Some; [done|]. by apply H2. }
  simpl. by eexists.
Qed.

Lemma change_order_Err o v e :
  change_order o v = Err e →
  length (shape v) = length (axes (order v)) →
  e = AxisSetMismatchError ∧
  ¬ (axes (order v) ⊆ axes o ∧ axes o ⊆ axes (order v)).
Proof.
  intros Hc Hlen. unfold change_order in Hc. case_decide as Hset.
  - destruct Hset as [H1 H2].
    destruct (change_order_is_Ok o v Hlen H1 H2) as [v' Hv'].
    unfold change_order in Hv'. rewrite decide_True in Hv' by done. congruence.
  - split; [congruence|done].
Qed.

Lemma Forall2_lookup_unique d l ns ms :
  Forall2 (λ a n, d !! a = Some n) l ns →
  Forall2 (λ a n, d !! a = Some n) l ms → ns = ms.
Proof.
  intros H1. revert ms. induction H1 as [|a n l ns Hn _ IH]; intros ms H2.
  - by inversion H2.
  - inversion H2 as [|? m ? ms' Hm Hms]; subst. f_equal; [congruence|by apply IH].
Qed.

End ShapeDict.

(** ** Running methods *)

Section Run.

Context {A B : Type}.
Implicit Types (m : M A) (f : A → M B) (w : World).

Lemma M_bind_Ok m f w a w' :
  m w = (Ok a, w') → (m ≫= f) w = f a w'.
Proof. unfold mbind, M_bind. by intros ->. Qed.

Lemma M_bind_Err m f w e w' :
  m w = (Err e, w') → (m ≫= f) w = (Err e, w').
Proof. unfold mbind, M_bind. by intros ->. Qed.

End Run.

Section Accessors.

Variables (w : World) (x : VariableT) (k s p : Z * Z).
Hypothesis Hready : Ready w x k s p.

Lemma get_input_run : get_input "x" w = (Ok x, w).
Proof.
  unfold get_input. erewrite M_bind_Ok by reflexivity.
  by rewrite (ready_input _ _ _ _ _ Hready).
Qed.

Lemma ksize_run : ksize w = (Ok k, w).
Proof.
  unfold ksize, get_parameter. erewrite M_bind_Ok by reflexivity.
  by rewrite (ready_ksize _ _ _ _ _ Hready).
Qed.

Lemma stride_run : stride w = (Ok s, w).
Proof.
  unfold stride, get_parameter. erewrite M_bind_Ok by reflexivity.
  by rewrite (ready_stride _ _ _ _ _ Hready).
Qed.

Lemma padding_run : padding w = (Ok p, w).
Proof.
  unfold padding, get_parameter. erewrite M_bind_Ok by reflexivity.
  by rewrite (ready_padding _ _ _ _ _ Hready).
Qed.

Lemma KH_run : KH w = (Ok k.1, w).
Proof. unfold KH. by erewrite M_bind_Ok by apply ksize_run. Qed.
Lemma KW_run : KW w = (Ok k.2, w).
Proof. unfold KW. by erewrite M_bind_Ok by apply ksize_run. Qed.
Lemma SH_run : SH w = (Ok s.1, w).
Proof. unfold SH. by erewrite M_bind_Ok by apply stride_run. Qed.
Lemma SW_run : SW w = (Ok s.2, w).
Proof. unfold SW. by erewrite M_bind_Ok by apply stride_run. Qed.
Lemma PH_run : PH w = (Ok p.1, w).
Proof. unfold PH. by erewrite M_bind_Ok by apply padding_run. Qed.
Lemma PW_run : PW w = (Ok p.2, w).
Proof. unfold PW. by erewrite M_bind_Ok by apply padding_run. Qed.

End Accessors.

Lemma lift_run {A} (r : Result A) w : lift r w = (r, w).
Proof. done. Qed.

Lemma floordiv_run a b w : b ≠ 0 → floordiv a b w = (Ok (a / b), w).
Proof. intros Hb. unfold floordiv. by rewrite decide_False. Qed.

Lemma floordiv_zero a w : floordiv a 0 w = (Err ZeroDivisionError, w).
Proof. done. Qed.

Lemma pymod_run a b w : b ≠ 0 → pymod a b w = (Ok (a mod b), w).
Proof. intros Hb. unfold pymod. by rewrite decide_False. Qed.

(** Reading the operator does not depend on the console. *)
Lemma Ready_console w x k s p log :
  Ready w x k s p → Ready (mkWorld (self w) log) x k s p.
Proof. by intros []. Qed.

Lemma with_attributes_nil op : with_attributes op [] = op.
Proof. destruct op. unfold with_attributes. simpl. by rewrite app_nil_r. Qed.

Lemma with_attributes_app op l1 l2 :
  with_attributes (with_attributes op l1) l2 = with_attributes op (l1 ++ l2).
Proof. unfold with_attributes. simpl. by rewrite app_assoc. Qed.

(** The loop at the end of [exec]. *)
Lemma tensorwise_loop_run (l : list Axis.t) (w : World) :
  for_each l (λ axis,
    if decide (axis = Axis.H ∨ axis = Axis.W) then mret tt
    else add_attribute (Tensorwise axis)) w
  = (Ok tt, mkWorld (with_attributes (self w) (Tensorwise <$> tensorwise_axes l))
                    (console w)).
Proof.
  revert w. induction l as [|a l IH]; intros w.
  - simpl. rewrite with_attributes_nil. by destruct w.
  - cbn [for_each]. unfold tensorwise_axes. rewrite filter_cons.
    destruct (decide (a = Axis.H ∨ a = Axis.W)) as [Ha|Ha].
    + rewrite decide_False by tauto.
      erewrite M_bind_Ok by reflexivity. apply IH.
    + rewrite decide_True by done.
      erewrite M_bind_Ok by reflexivity.
      rewrite IH. unfold with_attributes, tensorwise_axes. simpl.
      by rewrite <- app_assoc.
Qed.

(** ** What [exec] does *)

Section Exec.

Variables (w : World) (x : VariableT) (k s p : Z * Z).
Hypothesis Hready : Ready w x k s p.

Ltac run_with lem := erewrite M_bind_Ok by (eapply lem; eassumption).
Ltac run_lift := erewrite M_bind_Ok by (rewrite lift_run; f_equal; eassumption).
Ltac in_four := rewrite !elem_of_cons; tauto.

Lemma edge_ignored_run h wd :
  shape_dict x !! Axis.H = Some h → shape_dict x !! Axis.W = Some wd →
  s.1 ≠ 0 → s.2 ≠ 0 →
  edge_ignored (shape_dict x) w = (Ok (edge_cond h wd k s p), w).
Proof.
  intros Hh%getitem_Ok Hw%getitem_Ok Hs1 Hs2. unfold edge_ignored.
  run_lift. run_with PH_run. run_with KH_run. run_with SH_run.
  erewrite M_bind_Ok by (by apply pymod_run).
  unfold edge_cond. case_decide as Hr.
  - by rewrite bool_decide_eq_true_2 by tauto.
  - run_lift. run_with PW_run. run_with KW_run. run_with SW_run.
    erewrite M_bind_Ok by (by apply pymod_run).
    unfold mret, M_ret. do 2 f_equal. apply bool_decide_ext. tauto.
Qed.

(** [exec] on an input that has the four axes, with non-zero strides: the
    only step that can still fail is the re-ordering of the output. *)
Lemma exec_run n h wd c :
  shape_dict x !! Axis.N = Some n → shape_dict x !! Axis.H = Some h →
  shape_dict x !! Axis.W = Some wd → shape_dict x !! Axis.C = Some c →
  s.1 ≠ 0 → s.2 ≠ 0 →
  exec w =
    let H2 := (h + 2 * p.1 + s.1 - k.1 - 1) / s.1 + 1 in
    let W2 := (wd + 2 * p.2 + s.2 - k.2 - 1) / s.2 + 1 in
    let log := warned h wd k s p (console w) in
    match change_order (order x) (mkVariable [n; H2; W2; c] OrderNHWC) with
    | Ok y =>
        (Ok [y],
         mkWorld (with_attributes (with_output (self w) "y" y)
                    (Tensorwise <$> tensorwise_axes (axes (order x))))
                 log)
    | Err e => (Err e, mkWorld (self w) log)
    end.
Proof.
  intros Hn Hh Hw Hc Hs1 Hs2.
  pose proof Hn as Hn'%getitem_Ok. pose proof Hh as Hh'%getitem_Ok.
  pose proof Hw as Hw'%getitem_Ok. pose proof Hc as Hc'%getitem_Ok.
  unfold exec. run_with get_input_run. cbv zeta.
  do 2 run_lift.
  run_with PH_run. run_with SH_run. run_with KH_run. run_with SH_run.
  erewrite M_bind_Ok by (by apply floordiv_run).
  run_lift.
  run_with PW_run. run_with SW_run. run_with KW_run. run_with SW_run.
  erewrite M_bind_Ok by (by apply floordiv_run).
  run_lift.
  erewrite M_bind_Ok by (by apply edge_ignored_run).
  set (log := warned h wd k s p (console w)).
  set (y0 := mkVariable _ OrderNHWC).
  assert (Hwarn : (if edge_cond h wd k s p then console_warning edge_warning
                   else mret tt) w = (Ok tt, mkWorld (self w) log)).
  { unfold log, warned. destruct (edge_cond h wd k s p); [done|].
    unfold mret, M_ret. rewrite app_nil_r. by destruct w. }
  erewrite M_bind_Ok by exact Hwarn.
  erewrite M_bind_Ok by reflexivity.
  destruct (change_order (order x) y0) as [y|e] eqn:Hy.
  - erewrite M_bind_Ok by (rewrite lift_run; f_equal; exact Hy).
    erewrite M_bind_Ok by reflexivity.
    erewrite M_bind_Ok by apply tensorwise_loop_run.
    reflexivity.
  - by erewrite M_bind_Err by (rewrite lift_run; f_equal; exact Hy).
Qed.

(** [exec] on an input that lacks one of the four axes leaves the operator
    and the console as they were. *)
Lemma exec_missing_axis :
  (∃ a, a ∈ [Axis.N; Axis.H; Axis.W; Axis.C] ∧ shape_dict x !! a = None) →
  ∃ e, exec w = (Err e, w) ∧
       ((e = ZeroDivisionError ∧ (s.1 = 0 ∨ s.2 = 0)) ∨
        (∃ a, a ∈ [Axis.N; Axis.H; Axis.W; Axis.C] ∧
              shape_dict x !! a = None ∧ e = AxisLookupError a)).
Proof.
  intros Hmiss. unfold exec. run_with get_input_run. cbv zeta.
  destruct (shape_dict x !! Axis.N) as [n|] eqn:Hn; cycle 1.
  { eexists. split.
    - erewrite M_bind_Err; [done|]. rewrite lift_run. unfold getitem. by rewrite Hn.
    - right. exists Axis.N. split; [in_four|done]. }
  erewrite M_bind_Ok by (rewrite lift_run; unfold getitem; by rewrite Hn).
  destruct (shape_dict x !! Axis.H) as [h|] eqn:Hh; cycle 1.
  { eexists. split.
    - erewrite M_bind_Err; [done|]. rewrite lift_run. unfold getitem. by rewrite Hh.
    - right. exists Axis.H. split; [in_four|done]. }
  erewrite M_bind_Ok by (rewrite lift_run; unfold getitem; by rewrite Hh).
  run_with PH_run. run_with SH_run. run_with KH_run. run_with SH_run.
  destruct (decide (s.1 = 0)) as [Hs1|Hs1].
  { eexists. split; [|left; split; [done|by left]].
    erewrite M_bind_Err; [done|]. rewrite Hs1. apply floordiv_zero. }
  erewrite M_bind_Ok by (by apply floordiv_run).
  destruct (shape_dict x !! Axis.W) as [wd|] eqn:Hw; cycle 1.
  { eexists. split.
    - erewrite M_bind_Err; [done|]. rewrite lift_run. unfold getitem. by rewrite Hw.
    - right. exists Axis.W. split; [in_four|done]. }
  erewrite M_bind_Ok by (rewrite lift_run; unfold getitem; by rewrite Hw).
  run_with PW_run. run_with SW_run. run_with KW_run. run_with SW_run.
  destruct (decide (s.2 = 0)) as [Hs2|Hs2].
  { eexists. split; [|left; split; [done|by right]].
    erewrite M_bind_Err; [done|]. rewrite Hs2. apply floordiv_zero. }
  erewrite M_bind_Ok by (by apply floordiv_run).
  destruct (shape_dict x !! Axis.C) as [c|] eqn:Hc; cycle 1.
  { eexists. split.
    - erewrite M_bind_Err; [done|]. rewrite lift_run. unfold getitem. by rewrite Hc.
    - right. exists Axis.C. split; [in_four|done]. }
  exfalso. destruct Hmiss as (a & Ha & Hnone).
  rewrite !elem_of_cons in Ha.
  destruct Ha as [->|[->|[->|[->|Ha]]]]; [congruence..|by inversion Ha].
Qed.

End Exec.

Lemma exec_zero_stride w x k s p n h wd c :
  Ready w x k s p →
  shape_dict x !! Axis.N = Some n → shape_dict x !! Axis.H = Some h →
  shape_dict x !! Axis.W = Some wd → shape_dict x !! Axis.C = Some c →
  s.1 = 0 ∨ s.2 = 0 →
  exec w = (Err ZeroDivisionError, w).
Proof.
  intros Hready Hn%getitem_Ok Hh%getitem_Ok Hw%getitem_Ok Hc%getitem_Ok Hs.
  unfold exec.
  erewrite M_bind_Ok by (eapply get_input_run; eassumption). cbv zeta.
  do 2 erewrite M_bind_Ok by (rewrite lift_run; f_equal; eassumption).
  erewrite M_bind_Ok by (eapply PH_run; eassumption).
  erewrite M_bind_Ok by (eapply SH_run; eassumption).
  erewrite M_bind_Ok by (eapply KH_run; eassumption).
  erewrite M_bind_Ok by (eapply SH_run; eassumption).
  destruct (decide (s.1 = 0)) as [Hs1|Hs1].
  { erewrite M_bind_Err; [done|]. rewrite Hs1. apply floordiv_zero. }
  destruct Hs as [Hs|Hs2]; [done|].
  erewrite M_bind_Ok by (by apply floordiv_run).
  erewrite M_bind_Ok by (rewrite lift_run; f_equal; eassumption).
  erewrite M_bind_Ok by (eapply PW_run; eassumption).
  erewrite M_bind_Ok by (eapply SW_run; eassumption).
  erewrite M_bind_Ok by (eapply KW_run; eassumption).
  erewrite M_bind_Ok by (eapply SW_run; eassumption).
  erewrite M_bind_Err; [done|]. rewrite Hs2. apply floordiv_zero.
Qed.

(** ** From construction to the call *)

Lemma Pooling2D_init_eq nm ks st pd :
  Pooling2D_init nm ks st pd
  = Ok (Pooling2D_op nm (to_tuple ks) (to_tuple st) (to_tuple pd)).
Proof. reflexivity. Qed.

Lemma Pooling2D_op_Ready nm k s p x log :
  Ready (mkWorld (with_input (Pooling2D_op nm k s p) "x" x) log) x k s p.
Proof.
  split; simpl.
  - apply lookup_insert_eq.
  - rewrite !lookup_insert_ne by done. apply lookup_insert_eq.
  - rewrite lookup_insert_ne by done. apply lookup_insert_eq.
  - apply lookup_insert_eq.
Qed.

Lemma Pooling2D_call_eq nm k s p x log :
  Pooling2D_call x (mkWorld (Pooling2D_op nm k s p) log)
  = exec (mkWorld (with_input (Pooling2D_op nm k s p) "x" x) log).
Proof. unfold Pooling2D_call. by erewrite M_bind_Ok by reflexivity. Qed.

Lemma Pooling2D_apply_eq nm ks st pd x log :
  Pooling2D_apply nm ks st pd x log =
  let r := exec (mkWorld (with_input
             (Pooling2D_op nm (to_tuple ks) (to_tuple st) (to_tuple pd)) "x" x) log) in
  (r.1, Some r.2).
Proof.
  unfold Pooling2D_apply. rewrite Pooling2D_init_eq. cbv zeta.
  by rewrite Pooling2D_call_eq.
Qed.

Lemma Pooling2D_apply_Outcome nm ks st pd x log :
  Outcome nm (to_tuple ks) (to_tuple st) (to_tuple pd) x log
          (Pooling2D_apply nm ks st pd x log).
Proof.
  rewrite Pooling2D_apply_eq. cbv zeta.
  set (k := to_tuple ks). set (s := to_tuple st). set (p := to_tuple pd).
  pose proof (Pooling2D_op_Ready nm k s p x log) as Hready.
  set (w := mkWorld _ log) in *.
  destruct (decide (Exists (λ a, shape_dict x !! a = None)
                           [Axis.N; Axis.H; Axis.W; Axis.C])) as [Hmiss|Hall];
    rewrite Exists_exists in *.
  - destruct (exec_missing_axis w x k s p Hready Hmiss)
      as (e & -> & [[-> Hs]|(a & Ha & Hnone & ->)]); simpl.
    + by apply Outcome_zero.
    + by apply Outcome_missing.
  - assert (∀ a, a ∈ [Axis.N; Axis.H; Axis.W; Axis.C] →
                 is_Some (shape_dict x !! a)) as Hsome.
    { intros a Ha. apply not_eq_None_Some. intros Hnone. apply Hall. eauto. }
    destruct (Hsome Axis.N) as [n Hn]; [rewrite !elem_of_cons; tauto|].
    destruct (Hsome Axis.H) as [h Hh]; [rewrite !elem_of_cons; tauto|].
    destruct (Hsome Axis.W) as [wd Hw]; [rewrite !elem_of_cons; tauto|].
    destruct (Hsome Axis.C) as [c Hc]; [rewrite !elem_of_cons; tauto|].
    destruct (decide (s.1 = 0 ∨ s.2 = 0)) as [Hs|Hs].
    + rewrite (exec_zero_stride w x k s p n h wd c) by done.
      by apply Outcome_zero.
    + assert (s.1 ≠ 0 ∧ s.2 ≠ 0) as [Hs1 Hs2] by tauto.
      rewrite (exec_run w x k s p Hready n h wd c) by done. cbv zeta.
      destruct (change_order _ _) as [y|e] eqn:Hy; simpl.
      * by eapply Outcome_return.
      * apply change_order_Err in Hy as [-> Hset]; [|done].
        by eapply Outcome_mismatch.
Qed.

(** ** Inputs over the four axes *)

Lemma NHWC_input_wf x : NHWC_input x → Variable_wf x.
Proof.
  intros [Hp Hlen]. split; [done|]. unfold Order_wf. rewrite Hp.
  repeat (apply NoDup_cons; split; [rewrite ?elem_of_cons, ?elem_of_nil; intuition discriminate|]).
  apply NoDup_nil_2.
Qed.

Lemma NHWC_input_axes x a :
  NHWC_input x → a ∈ axes (order x) ↔ a ∈ [Axis.N; Axis.H; Axis.W; Axis.C].
Proof. intros [Hp _]. by rewrite Hp. Qed.

Lemma NHWC_input_sizes x :
  NHWC_input x →
  ∃ n h wd c,
    shape_dict x !! Axis.N = Some n ∧ shape_dict x !! Axis.H = Some h ∧
    shape_dict x !! Axis.W = Some wd ∧ shape_dict x !! Axis.C = Some c.
Proof.
  intros Hx.
  assert (∀ a, a ∈ [Axis.N; Axis.H; Axis.W; Axis.C] →
               is_Some (shape_dict x !! a)) as Hsome.
  { intros a Ha. apply shape_dict_is_Some; [apply Hx|].
    by apply NHWC_input_axes. }
  destruct (Hsome Axis.N) as [n Hn]; [rewrite !elem_of_cons; tauto|].
  destruct (Hsome Axis.H) as [h Hh]; [rewrite !elem_of_cons; tauto|].
  destruct (Hsome Axis.W) as [wd Hw]; [rewrite !elem_of_cons; tauto|].
  destruct (Hsome Axis.C) as [c Hc]; [rewrite !elem_of_cons; tauto|].
  by exists n, h, wd, c.
Qed.

Lemma shape_dict_NHWC n h wd c :
  let d := shape_dict (mkVariable [n; h; wd; c] OrderNHWC) in
  d !! Axis.N = Some n ∧ d !! Axis.H = Some h ∧
  d !! Axis.W = Some wd ∧ d !! Axis.C = Some c.
Proof.
  unfold shape_dict. simpl. split_and!.
  - apply lookup_insert_eq.
  - rewrite lookup_insert_ne by done. apply lookup_insert_eq.
  - rewrite !lookup_insert_ne by done. apply lookup_insert_eq.
  - rewrite !lookup_insert_ne by done. apply lookup_insert_eq.
Qed.

(** On such an input, with non-zero strides, the call returns. *)
Lemma Pooling2D_apply_return nm ks st pd x log :
  NHWC_input x → (to_tuple st).1 ≠ 0 → (to_tuple st).2 ≠ 0 →
  let k := to_tuple ks in let s := to_tuple st in let p := to_tuple pd in
  ∃ n h wd c y,
    (shape_dict x !! Axis.N = Some n ∧ shape_dict x !! Axis.H = Some h ∧
     shape_dict x !! Axis.W = Some wd ∧ shape_dict x !! Axis.C = Some c) ∧
    change_order (order x)
      (mkVariable [n; (h + 2 * p.1 + s.1 - k.1 - 1) / s.1 + 1;
                      (wd + 2 * p.2 + s.2 - k.2 - 1) / s.2 + 1; c] OrderNHWC)
    = Ok y ∧
    Pooling2D_apply nm ks st pd x log
    = (Ok [y], Some (mkWorld (Pooling2D_done nm k s p x y) (warned h wd k s p log))).
Proof.
  intros Hx Hs1 Hs2. cbv zeta. rewrite Pooling2D_apply_eq. cbv zeta.
  set (k := to_tuple ks) in *. set (s := to_tuple st) in *.
  set (p := to_tuple pd) in *.
  destruct (NHWC_input_sizes x Hx) as (n & h & wd & c & Hn & Hh & Hw & Hc).
  set (y0 := mkVariable [n; (h + 2 * p.1 + s.1 - k.1 - 1) / s.1 + 1;
                            (wd + 2 * p.2 + s.2 - k.2 - 1) / s.2 + 1; c] OrderNHWC).
  destruct (change_order_is_Ok (order x) y0) as [y Hy]; [done|..].
  { intros a Ha. by apply NHWC_input_axes. }
  { intros a Ha. by apply NHWC_input_axes in Ha. }
  exists n, h, wd, c, y. split; [done|]. split; [done|].
  rewrite (exec_run _ x k s p (Pooling2D_op_Ready nm k s p x log) n h wd c) by done.
  cbv zeta. fold y0. by rewrite Hy.
Qed.

(** The output after re-ordering: the input's order, and the sizes of the
    variable built in NHWC order. *)
Lemma reordered_output o n h wd c y :
  change_order o (mkVariable [n; h; wd; c] OrderNHWC) = Ok y →
  order y = o ∧
  shape_dict y !! Axis.N = Some n ∧ shape_dict y !! Axis.H = Some h ∧
  shape_dict y !! Axis.W = Some wd ∧ shape_dict y !! Axis.C = Some c.
Proof.
  intros Hy. split; [by apply change_order_Ok in Hy as [? _]|].
  rewrite (change_order_shape_dict _ _ _ Hy). apply shape_dict_NHWC.
Qed.

(** ** Output size *)

(** The numerator [exec] divides is the spec's second one plus [s - 1]:
    the quotient is rounded up, not down. *)
Lemma rounded_up (i k s p : Z) :
  0 < s →
  (i + 2 * p + s - k - 1) / s + 1
  = spec_out_size_alt i k s p + (if decide ((i + 2 * p - k) mod s = 0) then 0 else 1).
Proof.
  intros Hs. unfold spec_out_size_alt.
  set (a := i + 2 * p - k).
  replace (i + 2 * p + s - k - 1) with (a + (s - 1)) by (unfold a; lia).
  pose proof (Z.div_mod a s ltac:(lia)) as Hdm.
  pose proof (Z.mod_pos_bound a s Hs) as Hb.
  case_decide as Hm.
  - rewrite Hm in Hdm.
    assert ((a + (s - 1)) / s = a / s) as ->; [|lia].
    symmetry. apply (Z.div_unique _ _ _ (s - 1)); lia.
  - assert ((a + (s - 1)) / s = a / s + 1) as ->; [|lia].
    symmetry. apply (Z.div_unique _ _ _ (a mod s - 1)); lia.
Qed.

(** C1, as the code has it.  For an input over N, H, W, C and non-zero
    strides, [exec] returns one output whose height is
    [floor((H + 2*PH + SH - KH - 1) / SH) + 1] and whose width is the same
    expression in W, PW, SW, KW: the stride is added in the numerator, not
    subtracted.  For a positive stride this is [floor((H + 2*PH - KH) / SH) + 1]
    when the stride divides [H + 2*PH - KH], and one more otherwise. *)
Theorem Pooling2D_output_size nm ks st pd x log h wd :
  NHWC_input x →
  shape_dict x !! Axis.H = Some h → shape_dict x !! Axis.W = Some wd →
  (to_tuple st).1 ≠ 0 → (to_tuple st).2 ≠ 0 →
  let k := to_tuple ks in let s := to_tuple st in let p := to_tuple pd in
  ∃ y w',
    Pooling2D_apply nm ks st pd x log = (Ok [y], Some w') ∧
    shape_dict y !! Axis.H = Some ((h + 2 * p.1 + s.1 - k.1 - 1) / s.1 + 1) ∧
    shape_dict y !! Axis.W = Some ((wd + 2 * p.2 + s.2 - k.2 - 1) / s.2 + 1) ∧
    (0 < s.1 →
     shape_dict y !! Axis.H
     = Some (spec_out_size_alt h k.1 s.1 p.1
             + (if decide ((h + 2 * p.1 - k.1) mod s.1 = 0) then 0 else 1))) ∧
    (0 < s.2 →
     shape_dict y !! Axis.W
     = Some (spec_out_size_alt wd k.2 s.2 p.2
             + (if decide ((wd + 2 * p.2 - k.2) mod s.2 = 0) then 0 else 1))).
Proof.
  intros Hx Hh Hw Hs1 Hs2. cbv zeta.
  destruct (Pooling2D_apply_return nm ks st pd x log Hx Hs1 Hs2)
    as (n & h' & wd' & c & y & (Hn & Hh' & Hw' & Hc) & Hy & Hrun).
  assert (h' = h) as -> by congruence. assert (wd' = wd) as -> by congruence.
  apply reordered_output in Hy as (_ & _ & HH & HW & _).
  exists y. eexists. split; [exact Hrun|].
  split; [done|]. split; [done|]. split.
  - intros Hpos. by rewrite HH, rounded_up.
  - intros Hpos. by rewrite HW, rounded_up.
Qed.

(** An NCHW input of sizes N=2, C=5, H=4, W=3, pooled 2x2 with stride 2. *)
Lemma Pooling2D_output_size_witness :
  ∃ y w',
    Pooling2D_apply None (IntV 2) (IntV 2) (IntV 0)
                    (mkVariable [2; 5; 4; 3] OrderNCHW) [] = (Ok [y], Some w') ∧
    shape_dict y !! Axis.H = Some 2 ∧ shape_dict y !! Axis.W = Some 2.
Proof.
  destruct (Pooling2D_output_size None (IntV 2) (IntV 2) (IntV 0)
              (mkVariable [2; 5; 4; 3] OrderNCHW) [] 4 3)
    as (y & w' & Hrun & HH & HW & _).
  - split; [|reflexivity]. compute_done.
  - reflexivity.
  - reflexivity.
  - simpl. lia.
  - simpl. lia.
  - exists y, w'. split; [exact Hrun|]. split; [exact HH|exact HW].
Defined.

(** C1, as the spec words it, fails.  A 4x4 input pooled 2x2 with stride 2
    and no padding comes out 2x2, where the spec's first formula gives 0
    (and its second one 2, so the two are not equivalent).  A 5x5 input with
    the same parameters comes out 3x3, where the second formula gives 2. *)
Lemma Pooling2D_output_size_counterexample :
  (Pooling2D_apply None (IntV 2) (IntV 2) (IntV 0)
                   (mkVariable [1; 4; 4; 1] OrderNHWC) []).1
  = Ok [mkVariable [1; 2; 2; 1] OrderNHWC] ∧
  spec_out_size 4 2 2 0 = 0 ∧ spec_out_size_alt 4 2 2 0 = 2 ∧
  (Pooling2D_apply None (IntV 2) (IntV 2) (IntV 0)
                   (mkVariable [1; 5; 5; 1] OrderNHWC) []).1
  = Ok [mkVariable [1; 3; 3; 1] OrderNHWC] ∧
  spec_out_size 5 2 2 0 = 1 ∧ spec_out_size_alt 5 2 2 0 = 2.
Proof. vm_compute. repeat split. Qed.

(** ** Order preservation *)

(** C2.  For an input over N, H, W, C (in any arrangement) and non-zero
    strides, the output is built in NHWC order, re-ordered by
    [change_order] to the input's order, attached as output [y] and
    returned; its order is the input's order. *)
Theorem Pooling2D_preserves_order nm ks st pd x log :
  NHWC_input x → (to_tuple st).1 ≠ 0 → (to_tuple st).2 ≠ 0 →
  ∃ sizes y0 y w',
    Variable_new sizes OrderNHWC = Ok y0 ∧
    change_order (order x) y0 = Ok y ∧
    Pooling2D_apply nm ks st pd x log = (Ok [y], Some w') ∧
    outputs (self w') !! "y" = Some y ∧
    order y = order x.
Proof.
  intros Hx Hs1 Hs2.
  destruct (Pooling2D_apply_return nm ks st pd x log Hx Hs1 Hs2)
    as (n & h & wd & c & y & _ & Hy & Hrun).
  eexists [n; _; _; c], _, y, _. split; [reflexivity|]. split; [exact Hy|].
  split; [exact Hrun|]. split.
  - simpl. apply lookup_insert_eq.
  - by apply change_order_Ok in Hy as [? _].
Qed.

(** The six named orders are arrangements of N, H, W, C. *)
Lemma orders_NHWC o ns :
  o ∈ orders → length ns = 4%nat → NHWC_input (mkVariable ns o).
Proof.
  intros Ho Hlen. split; simpl.
  - unfold orders in Ho. rewrite !elem_of_cons, elem_of_nil in Ho.
    destruct Ho as [->|[->|[->|[->|[->|[->|[]]]]]]];
      compute_done.
  - rewrite Hlen. unfold orders in Ho. rewrite !elem_of_cons, elem_of_nil in Ho.
    by destruct Ho as [->|[->|[->|[->|[->|[->|[]]]]]]].
Qed.

Lemma Pooling2D_preserves_order_witness :
  ∃ y w',
    Pooling2D_apply None (IntV 3) (IntV 2) (IntV 1)
                    (mkVariable [7; 9; 4; 2] OrderHWCN) [] = (Ok [y], Some w') ∧
    order y = OrderHWCN.
Proof.
  destruct (Pooling2D_preserves_order None (IntV 3) (IntV 2) (IntV 1)
              (mkVariable [7; 9; 4; 2] OrderHWCN) [])
    as (sizes & y0 & y & w' & _ & _ & Hrun & _ & Ho).
  - split; [|reflexivity]. compute_done.
  - simpl. lia.
  - simpl. lia.
  - exists y, w'. split; [exact Hrun|exact Ho].
Defined.

(** ** The edge-ignored warning *)

(** C3.  For an input over N, H, W, C and non-zero strides, the call returns
    its output, of the computed shape, whether or not it warns; it appends
    the warning to the console, once, when [(H + 2*PH - KH) % SH != 0] or
    [(W + 2*PW - KW) % SW != 0], and leaves the console alone otherwise. *)
Theorem Pooling2D_edge_warning nm ks st pd x log h wd :
  NHWC_input x →
  shape_dict x !! Axis.H = Some h → shape_dict x !! Axis.W = Some wd →
  (to_tuple st).1 ≠ 0 → (to_tuple st).2 ≠ 0 →
  let k := to_tuple ks in let s := to_tuple st in let p := to_tuple pd in
  ∃ y w',
    Pooling2D_apply nm ks st pd x log = (Ok [y], Some w') ∧
    shape_dict y !! Axis.H = Some ((h + 2 * p.1 + s.1 - k.1 - 1) / s.1 + 1) ∧
    shape_dict y !! Axis.W = Some ((wd + 2 * p.2 + s.2 - k.2 - 1) / s.2 + 1) ∧
    console w' =
      log ++ (if decide ((h + 2 * p.1 - k.1) mod s.1 ≠ 0 ∨
                         (wd + 2 * p.2 - k.2) mod s.2 ≠ 0)
              then [edge_warning] else []).
Proof.
  intros Hx Hh Hw Hs1 Hs2. cbv zeta.
  destruct (Pooling2D_apply_return nm ks st pd x log Hx Hs1 Hs2)
    as (n & h' & wd' & c & y & (Hn & Hh' & Hw' & Hc) & Hy & Hrun).
  assert (h' = h) as -> by congruence. assert (wd' = wd) as -> by congruence.
  apply reordered_output in Hy as (_ & _ & HH & HW & _).
  exists y. eexists. split; [exact Hrun|].
  split; [done|]. split; [done|].
  simpl. unfold warned, edge_cond. f_equal.
  case_decide; [by rewrite bool_decide_eq_true_2|by rewrite bool_decide_eq_false_2].
Qed.

(** A 5x4 input pooled 2x2 with stride 2: the height leaves a remainder,
    and the console, which showed one line, shows the warning after it. *)
Lemma Pooling2D_edge_warning_witness :
  ∃ y w',
    Pooling2D_apply None (IntV 2) (IntV 2) (IntV 0)
                    (mkVariable [1; 5; 4; 1] OrderNHWC) ["earlier"]
    = (Ok [y], Some w') ∧
    console w' = ["earlier"; edge_warning].
Proof.
  destruct (Pooling2D_edge_warning None (IntV 2) (IntV 2) (IntV 0)
              (mkVariable [1; 5; 4; 1] OrderNHWC) ["earlier"] 5 4)
    as (y & w' & Hrun & _ & _ & Hlog).
  - split; [|reflexivity]. compute_done.
  - reflexivity.
  - reflexivity.
  - simpl. lia.
  - simpl. lia.
  - exists y, w'. split; [exact Hrun|exact Hlog].
Defined.

(** With exact divisibility in both dimensions nothing is printed. *)
Example Pooling2D_no_warning :
  (Pooling2D_apply None (IntV 2) (IntV 2) (IntV 0)
                   (mkVariable [1; 4; 6; 1] OrderNHWC) [])
  = (Ok [mkVariable [1; 2; 3; 1] OrderNHWC],
     Some (mkWorld (Pooling2D_done None (2, 2) (2, 2) (0, 0)
                      (mkVariable [1; 4; 6; 1] OrderNHWC)
                      (mkVariable [1; 2; 3; 1] OrderNHWC)) [])).
Proof. vm_compute. reflexivity. Qed.

(** ** Batch and channel sizes *)

(** C7.  For an input over N, H, W, C in any arrangement (and non-zero
    strides, so that the call returns), the output has the input's batch
    size and the input's channel size. *)
Theorem Pooling2D_batch_channel nm ks st pd x log :
  NHWC_input x → (to_tuple st).1 ≠ 0 → (to_tuple st).2 ≠ 0 →
  ∃ y w',
    Pooling2D_apply nm ks st pd x log = (Ok [y], Some w') ∧
    shape_dict y !! Axis.N = shape_dict x !! Axis.N ∧
    shape_dict y !! Axis.C = shape_dict x !! Axis.C ∧
    is_Some (shape_dict x !! Axis.N) ∧ is_Some (shape_dict x !! Axis.C).
Proof.
  intros Hx Hs1 Hs2.
  destruct (Pooling2D_apply_return nm ks st pd x log Hx Hs1 Hs2)
    as (n & h & wd & c & y & (Hn & Hh & Hw & Hc) & Hy & Hrun).
  apply reordered_output in Hy as (_ & HN & _ & _ & HC).
  exists y. eexists. split; [exact Hrun|].
  rewrite HN, HC, Hn, Hc. eauto.
Qed.

Lemma Pooling2D_batch_channel_witness :
  ∃ y w',
    Pooling2D_apply None (IntV 3) (TupleV 1 2) (IntV 1)
                    (mkVariable [11; 8; 6; 7] OrderCHWN) [] = (Ok [y], Some w') ∧
    shape_dict y !! Axis.N = Some 7 ∧ shape_dict y !! Axis.C = Some 11.
Proof.
  destruct (Pooling2D_batch_channel None (IntV 3) (TupleV 1 2) (IntV 1)
              (mkVariable [11; 8; 6; 7] OrderCHWN) [])
    as (y & w' & Hrun & HN & HC & _).
  - split; [|reflexivity]. compute_done.
  - simpl. lia.
  - simpl. lia.
  - exists y, w'. split; [exact Hrun|]. split; [exact HN|exact HC].
Defined.

(** ** Tensorwise attributes *)

Lemma count_tensorwise_fmap (a : Axis.t) (l : list Axis.t) :
  length (filter (λ t, t = Tensorwise a) (Tensorwise <$> l))
  = length (filter (λ b, b = a) l).
Proof.
  induction l as [|b l IH]; [done|]. rewrite fmap_cons, !filter_cons.
  destruct (decide (b = a)) as [->|Hne].
  - rewrite decide_True by done. simpl. by rewrite IH.
  - rewrite decide_False by congruence. done.
Qed.

Lemma count_NoDup (a : Axis.t) (l : list Axis.t) :
  NoDup l →
  length (filter (λ b, b = a) l) = if decide (a ∈ l) then 1%nat else 0%nat.
Proof.
  induction 1 as [|b l Hb Hnd IH]; [done|]. rewrite filter_cons.
  destruct (decide (b = a)) as [->|Hne].
  - simpl. rewrite IH. rewrite decide_False by done.
    by rewrite decide_True by apply list_elem_of_here.
  - rewrite IH. destruct (decide (a ∈ l)) as [Hin|Hin].
    + by rewrite decide_True by (by apply list_elem_of_further).
    + rewrite decide_False; [done|]. rewrite elem_of_cons. intros [->|?]; done.
Qed.

Lemma count_tensorwise_axes (a : Axis.t) (l : list Axis.t) :
  NoDup l →
  length (filter (λ b, b = a) (tensorwise_axes l))
  = if decide (a ∈ l ∧ a ≠ Axis.H ∧ a ≠ Axis.W) then 1%nat else 0%nat.
Proof.
  intros Hnd. rewrite count_NoDup by (by apply NoDup_filter).
  unfold tensorwise_axes. apply decide_ext.
  rewrite list_elem_of_filter. split.
  - intros [Hne Hin]. split; [done|]. split; intros ->; apply Hne; auto.
  - intros (Hin & HH & HW). split; [|done]. intros [?|?]; done.
Qed.

(** C6.  After the call, for every axis [a], the operator carries exactly
    one [Tensorwise] attribute scoped to [a] if [a] is an axis of the
    input's order other than H and W, and none otherwise; so one for N, one
    for C, none for H and none for W. *)
Theorem Pooling2D_tensorwise nm ks st pd x log :
  NHWC_input x → (to_tuple st).1 ≠ 0 → (to_tuple st).2 ≠ 0 →
  ∃ y w',
    Pooling2D_apply nm ks st pd x log = (Ok [y], Some w') ∧
    (∀ a, count_tensorwise a (self w')
          = if decide (a ∈ axes (order x) ∧ a ≠ Axis.H ∧ a ≠ Axis.W)
            then 1%nat else 0%nat) ∧
    count_tensorwise Axis.N (self w') = 1%nat ∧
    count_tensorwise Axis.C (self w') = 1%nat ∧
    count_tensorwise Axis.H (self w') = 0%nat ∧
    count_tensorwise Axis.W (self w') = 0%nat.
Proof.
  intros Hx Hs1 Hs2.
  destruct (Pooling2D_apply_return nm ks st pd x log Hx Hs1 Hs2)
    as (n & h & wd & c & y & _ & Hy & Hrun).
  exists y. eexists. split; [exact Hrun|].
  assert (Hcount : ∀ a,
    count_tensorwise a (Pooling2D_done nm (to_tuple ks) (to_tuple st)
                                       (to_tuple pd) x y)
    = if decide (a ∈ axes (order x) ∧ a ≠ Axis.H ∧ a ≠ Axis.W)
      then 1%nat else 0%nat).
  { intros a. unfold count_tensorwise. simpl.
    rewrite count_tensorwise_fmap. apply count_tensorwise_axes.
    apply (NHWC_input_wf x Hx). }
  simpl. split; [exact Hcount|].
  rewrite !Hcount. split_and!.
  - rewrite decide_True; [done|]. split; [|done].
    apply NHWC_input_axes; [done|]. rewrite !elem_of_cons; tauto.
  - rewrite decide_True; [done|]. split; [|done].
    apply NHWC_input_axes; [done|]. rewrite !elem_of_cons; tauto.
  - rewrite decide_False; [done|]. tauto.
  - rewrite decide_False; [done|]. tauto.
Qed.

Lemma Pooling2D_tensorwise_witness :
  ∃ y w',
    Pooling2D_apply None (IntV 2) (IntV 2) (IntV 0)
                    (mkVariable [4; 6; 3; 2] OrderHWNC) [] = (Ok [y], Some w') ∧
    attributes (self w') = [Tensorwise Axis.N; Tensorwise Axis.C].
Proof.
  destruct (Pooling2D_tensorwise None (IntV 2) (IntV 2) (IntV 0)
              (mkVariable [4; 6; 3; 2] OrderHWNC) [])
    as (y & w' & Hrun & _).
  - split; [|reflexivity]. compute_done.
  - simpl. lia.
  - simpl. lia.
  - exists y, w'. split; [exact Hrun|].
    rewrite Pooling2D_apply_eq in Hrun. by injection Hrun as _ <-.
Defined.

(** ** Construction *)

Lemma Pooling2D_init_with_is_Ok conv nm ks st pd :
  is_Ok (Pooling2D_init_with conv nm ks st pd)
  = is_Ok (conv ks) && is_Ok (conv st) && is_Ok (conv pd).
Proof.
  unfold Pooling2D_init_with.
  by destruct (conv ks), (conv st), (conv pd).
Qed.

(** C4, as the code has it.  [Pooling2D.__init__] checks nothing itself: it
    fails only where the normaliser it is given fails, and it hands kernel
    size, stride and padding to the same normaliser, so a normaliser that
    lets the valid configuration kernel 1, stride 1, padding 0 through lets
    kernel 0, stride 0, padding 0 through as well.  With [to_tuple]
    construction always succeeds and stores the three normalised pairs,
    whatever their signs; it never raises [InvalidParameterError]. *)
Theorem Pooling2D_init_unchecked nm ks st pd :
  (∀ conv, is_Ok (Pooling2D_init_with conv nm ks st pd)
           = is_Ok (conv ks) && is_Ok (conv st) && is_Ok (conv pd)) ∧
  (∀ conv, is_Ok (Pooling2D_init_with conv nm (IntV 1) (IntV 1) (IntV 0)) = true →
           is_Ok (Pooling2D_init_with conv nm (IntV 0) (IntV 0) (IntV 0)) = true) ∧
  (∃ op, Pooling2D_init nm ks st pd = Ok op ∧
         name op = nm ∧
         parameters op !! "ksize" = Some (to_tuple ks) ∧
         parameters op !! "stride" = Some (to_tuple st) ∧
         parameters op !! "padding" = Some (to_tuple pd) ∧
         inputs op = ∅ ∧ outputs op = ∅ ∧ attributes op = []).
Proof.
  split; [intros conv; apply Pooling2D_init_with_is_Ok|]. split.
  - intros conv. rewrite !Pooling2D_init_with_is_Ok.
    destruct (conv (IntV 0)); [done|]. simpl. by rewrite andb_false_r.
  - eexists. split; [apply Pooling2D_init_eq|]. simpl. split; [done|].
    split; [|split; [|split; [|done]]].
    + rewrite !lookup_insert_ne by done. apply lookup_insert_eq.
    + rewrite lookup_insert_ne by done. apply lookup_insert_eq.
    + apply lookup_insert_eq.
Qed.

(** C4, as the spec words it, fails.  A zero kernel with a negative stride
    and a negative padding constructs; with negative parameters the shape
    arithmetic of [exec] runs and returns, and with a zero stride it is the
    division in [exec] that raises, [ZeroDivisionError]. *)
Lemma Pooling2D_init_unchecked_counterexample :
  Pooling2D_init None (IntV 0) (IntV (-1)) (TupleV (-2) 0)
  = Ok (Pooling2D_op None (0, 0) (-1, -1) (-2, 0)) ∧
  (Pooling2D_apply None (IntV (-1)) (IntV (-1)) (IntV (-1))
                   (mkVariable [1; 4; 4; 1] OrderNHWC) []).1
  = Ok [mkVariable [1; 0; 0; 1] OrderNHWC] ∧
  (Pooling2D_apply None (IntV 0) (IntV 0) (IntV 0)
                   (mkVariable [1; 4; 4; 1] OrderNHWC) []).1
  = Err ZeroDivisionError.
Proof. vm_compute. repeat split. Qed.

(** ** Non-positive extents *)

Lemma Pooling2D_apply_error nm ks st pd x log e ow :
  Pooling2D_apply nm ks st pd x log = (Err e, ow) →
  e = ZeroDivisionError ∨ e = AxisSetMismatchError ∨ ∃ a, e = AxisLookupError a.
Proof.
  intros Hrun. pose proof (Pooling2D_apply_Outcome nm ks st pd x log) as Hout.
  destruct Hout; simplify_eq; eauto.
Qed.

(** C5, as the code has it.  [exec] does not look at the sign of the
    extents it computes: for an input over N, H, W, C and non-zero strides
    the shape arithmetic does not fail and the call returns the output with
    the computed height and width, positive or not.  No call ever raises
    [IncompatibleShapeError]. *)
Theorem Pooling2D_extent_unchecked nm ks st pd x log h wd :
  NHWC_input x →
  shape_dict x !! Axis.H = Some h → shape_dict x !! Axis.W = Some wd →
  (to_tuple st).1 ≠ 0 → (to_tuple st).2 ≠ 0 →
  let k := to_tuple ks in let s := to_tuple st in let p := to_tuple pd in
  (∃ y w',
     Pooling2D_apply nm ks st pd x log = (Ok [y], Some w') ∧
     outputs (self w') !! "y" = Some y ∧
     shape_dict y !! Axis.H = Some ((h + 2 * p.1 + s.1 - k.1 - 1) / s.1 + 1) ∧
     shape_dict y !! Axis.W = Some ((wd + 2 * p.2 + s.2 - k.2 - 1) / s.2 + 1)) ∧
  (∀ x' log', (Pooling2D_apply nm ks st pd x' log').1 ≠ Err IncompatibleShapeError).
Proof.
  intros Hx Hh Hw Hs1 Hs2. cbv zeta. split.
  - destruct (Pooling2D_apply_return nm ks st pd x log Hx Hs1 Hs2)
      as (n & h' & wd' & c & y & (Hn & Hh' & Hw' & Hc) & Hy & Hrun).
    assert (h' = h) as -> by congruence. assert (wd' = wd) as -> by congruence.
    apply reordered_output in Hy as (_ & _ & HH & HW & _).
    exists y. eexists. split; [exact Hrun|]. split; [|done].
    simpl. apply lookup_insert_eq.
  - intros x' log' Herr.
    destruct (Pooling2D_apply nm ks st pd x' log') as [r ow] eqn:Hrun.
    simpl in Herr. subst r.
    apply Pooling2D_apply_error in Hrun as [?|[?|[a ?]]]; congruence.
Qed.

(** A 1x1 input under a 5x5 kernel: the computed extents are -3 and the
    output has them. *)
Lemma Pooling2D_extent_unchecked_witness :
  ∃ y w',
    Pooling2D_apply None (IntV 5) (IntV 1) (IntV 0)
                    (mkVariable [1; 1; 1; 1] OrderNHWC) [] = (Ok [y], Some w') ∧
    shape_dict y !! Axis.H = Some (-3) ∧ shape_dict y !! Axis.W = Some (-3).
Proof.
  destruct (Pooling2D_extent_unchecked None (IntV 5) (IntV 1) (IntV 0)
              (mkVariable [1; 1; 1; 1] OrderNHWC) [] 1 1)
    as [(y & w' & Hrun & _ & HH & HW) _].
  - split; [|reflexivity]. compute_done.
  - reflexivity.
  - reflexivity.
  - simpl. lia.
  - simpl. lia.
  - exists y, w'. split; [exact Hrun|]. split; [exact HH|exact HW].
Defined.

(** C5, as the spec words it, fails.  A 1x1 input under a 5x5 kernel gives
    the extents -3, and a 2x2 input under a 3x3 kernel the extents 0; both
    calls return the output. *)
Lemma Pooling2D_extent_unchecked_counterexample :
  (Pooling2D_apply None (IntV 5) (IntV 1) (IntV 0)
                   (mkVariable [1; 1; 1; 1] OrderNHWC) []).1
  = Ok [mkVariable [1; -3; -3; 1] OrderNHWC] ∧
  (Pooling2D_apply None (IntV 3) (IntV 1) (IntV 0)
                   (mkVariable [1; 2; 2; 1] OrderNHWC) []).1
  = Ok [mkVariable [1; 0; 0; 1] OrderNHWC].
Proof. vm_compute. repeat split. Qed.

(** ** The four look-ups *)




(** ** Re-ordering there and back *)

(** C9.  For a well-formed variable [v] and an order [o1]: if [o1] has the
    axes of [v]'s order, [change_order o1] succeeds, the result has order
    [o1] and, for each axis of [o1] in turn, the size that [v]'s
    [shape_dict] has for it, and [change_order] back to [v]'s order gives
    [v] again, shape and order; if the axis sets differ, [change_order o1]
    fails with [AxisSetMismatchError]. *)
Theorem change_order_round_trip (v : VariableT) (o1 : Order) :
  Variable_wf v →
  (axes (order v) ⊆ axes o1 ∧ axes o1 ⊆ axes (order v) →
   ∃ v1, change_order o1 v = Ok v1 ∧
         order v1 = o1 ∧
         Forall2 (λ a n, shape_dict v !! a = Some n) (axes o1) (shape v1) ∧
         change_order (order v) v1 = Ok v) ∧
  (¬ (axes (order v) ⊆ axes o1 ∧ axes o1 ⊆ axes (order v)) →
   change_order o1 v = Err AxisSetMismatchError).
Proof.
  intros Hwf. split.
  - intros [H1 H2].
    destruct (change_order_is_Ok o1 v) as [v1 Hv1]; [apply Hwf|done..|].
    exists v1. split; [done|].
    pose proof (change_order_Ok _ _ _ Hv1) as (Ho & Hf & _).
    split; [done|]. split; [done|].
    unfold change_order. rewrite Ho. rewrite decide_True by done.
    rewrite (change_order_shape_dict _ _ _ Hv1).
    apply shape_dict_own_order, lookup_all_Ok in Hwf as ->.
    simpl. by destruct v.
  - intros Hset. unfold change_order. by rewrite decide_False.
Qed.

Lemma change_order_round_trip_witness :
  ∃ v1, change_order OrderCHWN (mkVariable [2; 3; 4; 5] OrderNHWC) = Ok v1 ∧
        shape v1 = [5; 3; 4; 2] ∧
        change_order OrderNHWC v1 = Ok (mkVariable [2; 3; 4; 5] OrderNHWC).
Proof.
  destruct (change_order_round_trip (mkVariable [2; 3; 4; 5] OrderNHWC) OrderCHWN)
    as [Hback _].
  - split; [reflexivity|compute_done].
  - destruct Hback as (v1 & Hv1 & _ & _ & Hv).
    + compute_done.
    + exists v1. split; [exact Hv1|]. split; [|exact Hv].
      by injection Hv1 as <-.
Defined.

(** ** Deconvolution2D *)

Lemma get_input_slot_run w slot v :
  inputs (self w) !! slot = Some v → get_input slot w = (Ok v, w).
Proof.
  intros Hv. unfold get_input. erewrite M_bind_Ok by reflexivity. by rewrite Hv.
Qed.

Lemma Deconvolution2D_exec_run w x wt k s p n h wd cout :
  Ready w x k s p → inputs (self w) !! "w" = Some wt →
  shape_dict x !! Axis.N = Some n → shape_dict x !! Axis.H = Some h →
  shape_dict x !! Axis.W = Some wd → shape_dict wt !! Axis.N = Some cout →
  Deconvolution2D_exec w =
    let H2 := (h - 1) * s.1 - 2 * p.1 + k.1 in
    let W2 := (wd - 1) * s.2 - 2 * p.2 + k.2 in
    if decide (0 < H2 ∧ 0 < W2) then
      match change_order (order x) (mkVariable [n; H2; W2; cout] OrderNHWC) with
      | Ok y =>
          (Ok [y],
           mkWorld (with_attributes (with_output (self w) "y" y)
                      (Tensorwise <$> tensorwise_axes (axes (order x))))
                   (console w))
      | Err e => (Err e, w)
      end
    else (Err IncompatibleShapeError, w).
Proof.
  intros Hready Hwt Hn%getitem_Ok Hh%getitem_Ok Hw%getitem_Ok Hc%getitem_Ok.
  unfold Deconvolution2D_exec.
  erewrite M_bind_Ok by (eapply get_input_run; eassumption).
  erewrite M_bind_Ok by (eapply get_input_slot_run; eassumption). cbv zeta.
  do 2 erewrite M_bind_Ok by (rewrite lift_run; f_equal; eassumption).
  erewrite M_bind_Ok by (eapply SH_run; eassumption).
  erewrite M_bind_Ok by (eapply PH_run; eassumption).
  erewrite M_bind_Ok by (eapply KH_run; eassumption).
  erewrite M_bind_Ok by (rewrite lift_run; f_equal; eassumption).
  erewrite M_bind_Ok by (eapply SW_run; eassumption).
  erewrite M_bind_Ok by (eapply PW_run; eassumption).
  erewrite M_bind_Ok by (eapply KW_run; eassumption).
  erewrite M_bind_Ok by (rewrite lift_run; f_equal; eassumption).
  case_decide as Hpos; cycle 1.
  { by erewrite M_bind_Err by reflexivity. }
  erewrite M_bind_Ok by reflexivity.
  erewrite M_bind_Ok by reflexivity.
  set (y0 := mkVariable _ OrderNHWC).
  destruct (change_order (order x) y0) as [y|e] eqn:Hy.
  - erewrite M_bind_Ok by (rewrite lift_run; f_equal; exact Hy).
    erewrite M_bind_Ok by reflexivity.
    erewrite M_bind_Ok by apply tensorwise_loop_run.
    reflexivity.
  - by erewrite M_bind_Err by (rewrite lift_run; f_equal; exact Hy).
Qed.

Lemma Deconvolution2D_init_eq nm ks st pd :
  valid_parameters (to_tuple ks) (to_tuple st) (to_tuple pd) →
  Deconvolution2D_init nm ks st pd
  = Ok (Pooling2D_op nm (to_tuple ks) (to_tuple st) (to_tuple pd)).
Proof.
  intros Hv. unfold Deconvolution2D_init. rewrite decide_True by done.
  apply Pooling2D_init_eq.
Qed.

Lemma Deconvolution2D_init_invalid nm ks st pd :
  ¬ valid_parameters (to_tuple ks) (to_tuple st) (to_tuple pd) →
  Deconvolution2D_init nm ks st pd = Err InvalidParameterError.
Proof. intros Hv. unfold Deconvolution2D_init. by rewrite decide_False. Qed.

Lemma Deconvolution2D_call_return nm k s p x wt log n h wd cout :
  NHWC_input x →
  shape_dict x !! Axis.N = Some n → shape_dict x !! Axis.H = Some h →
  shape_dict x !! Axis.W = Some wd → shape_dict wt !! Axis.N = Some cout →
  0 < (h - 1) * s.1 - 2 * p.1 + k.1 → 0 < (wd - 1) * s.2 - 2 * p.2 + k.2 →
  ∃ y w',
    Deconvolution2D_call x wt (mkWorld (Pooling2D_op nm k s p) log)
    = (Ok [y], w') ∧
    order y = order x ∧
    shape_dict y !! Axis.N = Some n ∧
    shape_dict y !! Axis.H = Some ((h - 1) * s.1 - 2 * p.1 + k.1) ∧
    shape_dict y !! Axis.W = Some ((wd - 1) * s.2 - 2 * p.2 + k.2) ∧
    shape_dict y !! Axis.C = Some cout.
Proof.
  intros Hx Hn Hh Hw Hc HH2 HW2.
  set (w := mkWorld (with_input (with_input (Pooling2D_op nm k s p) "x" x) "w" wt)
                    log).
  assert (Deconvolution2D_call x wt (mkWorld (Pooling2D_op nm k s p) log)
          = Deconvolution2D_exec w) as ->.
  { unfold Deconvolution2D_call.
    erewrite M_bind_Ok by reflexivity. by erewrite M_bind_Ok by reflexivity. }
  assert (Ready w x k s p) as Hready.
  { split; simpl.
    - rewrite lookup_insert_ne by done. apply lookup_insert_eq.
    - rewrite !lookup_insert_ne by done. apply lookup_insert_eq.
    - rewrite lookup_insert_ne by done. apply lookup_insert_eq.
    - apply lookup_insert_eq. }
  rewrite (Deconvolution2D_exec_run w x wt k s p n h wd cout Hready);
    [|apply lookup_insert_eq|done..].
  cbv zeta. rewrite decide_True by done.
  set (y0 := mkVariable _ OrderNHWC).
  destruct (change_order_is_Ok (order x) y0) as [y Hy]; [done|..].
  { intros a Ha. by apply NHWC_input_axes. }
  { intros a Ha. by apply NHWC_input_axes in Ha. }
  rewrite Hy. exists y. eexists. split; [reflexivity|].
  by apply reordered_output in Hy.
Qed.

(** The model rejects what the spec says it rejects: a zero kernel at
    construction, and a 1x1 input whose computed extents, under kernel 1,
    stride 1 and padding 1, are -1. *)
Example Deconvolution2D_rejects :
  Deconvolution2D_init None (IntV 0) (IntV 1) (IntV 0) = Err InvalidParameterError ∧
  Deconvolution2D_init None (IntV 3) (TupleV 1 0) (IntV 0) = Err InvalidParameterError ∧
  Deconvolution2D_init None (IntV 3) (IntV 1) (IntV (-1)) = Err InvalidParameterError ∧
  (Deconvolution2D_apply None (IntV 1) (IntV 1) (IntV 1)
     (mkVariable [2; 1; 1; 6] OrderNHWC) (mkVariable [6; 1; 1; 3] OrderCHWN) []).1
  = Err IncompatibleShapeError.
Proof. by vm_compute. Qed.

(** C8.  [Deconvolution2D] as the spec describes it: for valid parameters
    (positive kernel and stride, non-negative padding), a data input over
    N, H, W, C in any arrangement, a weight input with an output-channel
    axis, and positive computed extents, the call returns one output in the
    order of the data input, with the batch size of the data input, height
    [(H - 1) * SH - 2 * PH + KH], width [(W - 1) * SW - 2 * PW + KW] and the
    weights' output-channel count.  The five scenarios of the test driver
    pass, and in each of them, for all 6 x 6 pairs of data and weight
    orders, the output has the data input's order and exactly the stated
    sizes. *)
Theorem Deconvolution2D_output_size nm ks st pd x wt log n h wd cout :
  valid_parameters (to_tuple ks) (to_tuple st) (to_tuple pd) →
  NHWC_input x →
  shape_dict x !! Axis.N = Some n → shape_dict x !! Axis.H = Some h →
  shape_dict x !! Axis.W = Some wd → shape_dict wt !! Axis.N = Some cout →
  let k := to_tuple ks in let s := to_tuple st in let p := to_tuple pd in
  0 < (h - 1) * s.1 - 2 * p.1 + k.1 → 0 < (wd - 1) * s.2 - 2 * p.2 + k.2 →
  (∃ y w',
     Deconvolution2D_apply nm ks st pd x wt log = (Ok [y], Some w') ∧
     order y = order x ∧
     shape_dict y !! Axis.N = Some n ∧
     shape_dict y !! Axis.H = Some ((h - 1) * s.1 - 2 * p.1 + k.1) ∧
     shape_dict y !! Axis.W = Some ((wd - 1) * s.2 - 2 * p.2 + k.2) ∧
     shape_dict y !! Axis.C = Some cout) ∧
  (test_normal = Ok tt ∧ test_large_stride = Ok tt ∧ test_no_padding = Ok tt ∧
   test_projection = Ok tt ∧ test_fully_connected = Ok tt) ∧
  (main_strict (IntV 3) (IntV 1) (IntV 1) 2 3 4 6 5 (shape_dict_of 2 3 4 5) = true ∧
   main_strict (IntV 3) (IntV 2) (IntV 1) 2 3 4 6 3 (shape_dict_of 2 5 7 3) = true ∧
   main_strict (IntV 3) (IntV 1) (IntV 0) 2 3 5 6 3 (shape_dict_of 2 5 7 3) = true ∧
   main_strict (IntV 1) (IntV 1) (IntV 0) 2 5 7 6 3 (shape_dict_of 2 5 7 3) = true ∧
   main_strict (TupleV 5 7) (IntV 1) (IntV 0) 2 1 1 6 3 (shape_dict_of 2 5 7 3) = true).
Proof.
  intros Hv Hx Hn Hh Hw Hc. cbv zeta. intros HH2 HW2.
  split; [|split; [|by vm_compute]].
  - unfold Deconvolution2D_apply. rewrite Deconvolution2D_init_eq by done.
    cbv zeta.
    destruct (Deconvolution2D_call_return nm (to_tuple ks) (to_tuple st)
                (to_tuple pd) x wt log n h wd cout)
      as (y & w' & -> & Hy); [done..|].
    exists y, w'. by split.
  - by vm_compute.
Qed.

(** The large-stride scenario, with the data in CNHW and the weights in
    HWNC order. *)
Lemma Deconvolution2D_output_size_witness :
  ∃ y w',
    Deconvolution2D_apply None (IntV 3) (IntV 2) (IntV 1)
      (mkVariable [6; 2; 3; 4] OrderCNHW) (mkVariable [3; 3; 3; 6] OrderHWNC) []
    = (Ok [y], Some w') ∧
    order y = OrderCNHW ∧
    shape_dict y !! Axis.N = Some 2 ∧ shape_dict y !! Axis.H = Some 5 ∧
    shape_dict y !! Axis.W = Some 7 ∧ shape_dict y !! Axis.C = Some 3.
Proof.
  destruct (Deconvolution2D_output_size None (IntV 3) (IntV 2) (IntV 1)
              (mkVariable [6; 2; 3; 4] OrderCNHW)
              (mkVariable [3; 3; 3; 6] OrderHWNC) [] 2 3 4 3)
    as [(y & w' & Hrun & Ho & HN & HH & HW & HC) _].
  - unfold valid_parameters. simpl. lia.
  - split; [|reflexivity]. compute_done.
  - reflexivity.
  - reflexivity.
  - reflexivity.
  - reflexivity.
  - simpl. lia.
  - simpl. lia.
  - exists y, w'. split; [exact Hrun|]. split; [exact Ho|].
    split; [exact HN|]. split; [exact HH|]. split; [exact HW|exact HC].
Defined.

(** * Further properties of [Pooling2D] *)

(** ** Reading the parameters back *)

(** The properties return what [__init__] stored, normalised, and reading
    them changes neither the operator nor the console: [ksize], [stride]
    and [padding] give the three pairs, [KH], [SH], [PH] their first and
    [KW], [SW], [PW] their second components. *)
Theorem Pooling2D_properties_read_back nm ks st pd log :
  ∃ op, Pooling2D_init nm ks st pd = Ok op ∧
    let w := mkWorld op log in
    ksize w = (Ok (to_tuple ks), w) ∧
    stride w = (Ok (to_tuple st), w) ∧
    padding w = (Ok (to_tuple pd), w) ∧
    KH w = (Ok (to_tuple ks).1, w) ∧ KW w = (Ok (to_tuple ks).2, w) ∧
    SH w = (Ok (to_tuple st).1, w) ∧ SW w = (Ok (to_tuple st).2, w) ∧
    PH w = (Ok (to_tuple pd).1, w) ∧ PW w = (Ok (to_tuple pd).2, w).
Proof.
  eexists. split; [apply Pooling2D_init_eq|]. cbv zeta.
  set (w := mkWorld _ log).
  assert (parameters (self w) !! "ksize" = Some (to_tuple ks)) as Hk.
  { simpl. rewrite !lookup_insert_ne by done. apply lookup_insert_eq. }
  assert (parameters (self w) !! "stride" = Some (to_tuple st)) as Hs.
  { simpl. rewrite lookup_insert_ne by done. apply lookup_insert_eq. }
  assert (parameters (self w) !! "padding" = Some (to_tuple pd)) as Hp.
  { simpl. apply lookup_insert_eq. }
  assert (ksize w = (Ok (to_tuple ks), w)) as Hks.
  { unfold ksize, get_parameter. erewrite M_bind_Ok by reflexivity. by rewrite Hk. }
  assert (stride w = (Ok (to_tuple st), w)) as Hst.
  { unfold stride, get_parameter. erewrite M_bind_Ok by reflexivity. by rewrite Hs. }
  assert (padding w = (Ok (to_tuple pd), w)) as Hpd.
  { unfold padding, get_parameter. erewrite M_bind_Ok by reflexivity. by rewrite Hp. }
  unfold KH, KW, SH, SW, PH, PW.
  split_and!; try done; by erewrite M_bind_Ok by eassumption.
Qed.

(** ** [exec] without an input *)

(** [exec] on an operator whose slot [x] is empty, whatever else the
    operator holds, raises [KeyError] for [x] at its first statement and
    changes nothing. *)
Theorem exec_without_input (w : World) :
  inputs (self w) !! "x" = None → exec w = (Err (KeyError "x"), w).
Proof.
  intros Hx. unfold exec.
  erewrite M_bind_Err; [done|].
  unfold get_input. erewrite M_bind_Ok by reflexivity. by rewrite Hx.
Qed.

(** A freshly constructed operator, executed without being called. *)
Lemma exec_without_input_witness :
  exec (mkWorld (Pooling2D_op None (2, 2) (2, 2) (0, 0)) [])
  = (Err (KeyError "x"), mkWorld (Pooling2D_op None (2, 2) (2, 2) (0, 0)) []).
Proof. apply (exec_without_input (mkWorld _ [])). reflexivity. Defined.

(** ** When the call returns *)

Lemma Pooling2D_apply_return_sets nm ks st pd x log n h wd c :
  shape_dict x !! Axis.N = Some n → shape_dict x !! Axis.H = Some h →
  shape_dict x !! Axis.W = Some wd → shape_dict x !! Axis.C = Some c →
  (to_tuple st).1 ≠ 0 → (to_tuple st).2 ≠ 0 →
  axes OrderNHWC ⊆ axes (order x) → axes (order x) ⊆ axes OrderNHWC →
  ∃ y,
    change_order (order x)
      (mkVariable [n; (h + 2 * (to_tuple pd).1 + (to_tuple st).1
                       - (to_tuple ks).1 - 1) / (to_tuple st).1 + 1;
                      (wd + 2 * (to_tuple pd).2 + (to_tuple st).2
                       - (to_tuple ks).2 - 1) / (to_tuple st).2 + 1; c] OrderNHWC)
    = Ok y ∧
    Pooling2D_apply nm ks st pd x log
    = (Ok [y], Some (mkWorld (Pooling2D_done nm (to_tuple ks) (to_tuple st)
                                             (to_tuple pd) x y)
                             (warned h wd (to_tuple ks) (to_tuple st)
                                     (to_tuple pd) log))).
Proof.
  intros Hn Hh Hw Hc Hs1 Hs2 H1 H2.
  rewrite Pooling2D_apply_eq. cbv zeta.
  set (k := to_tuple ks) in *. set (s := to_tuple st) in *.
  set (p := to_tuple pd) in *.
  set (y0 := mkVariable _ OrderNHWC).
  destruct (change_order_is_Ok (order x) y0) as [y Hy]; [done..|].
  exists y. split; [done|].
  rewrite (exec_run _ x k s p (Pooling2D_op_Ready nm k s p x log) n h wd c) by done.
  cbv zeta. fold y0. by rewrite Hy.
Qed.

(** The call returns a variable [y] exactly when both strides are
    non-zero, the input's shape dictionary has sizes [n], [h], [wd], [c] for
    N, H, W and C, and [y] is what [change_order] to the input's order makes
    of the variable built in NHWC order from [n], the pooled height, the
    pooled width and [c].  So a call that returns had non-zero strides and
    found all four sizes, and what it returns is determined by them. *)
Theorem Pooling2D_returns_iff nm ks st pd x log y :
  let k := to_tuple ks in let s := to_tuple st in let p := to_tuple pd in
  (∃ ow, Pooling2D_apply nm ks st pd x log = (Ok [y], ow)) ↔
  (s.1 ≠ 0 ∧ s.2 ≠ 0 ∧
   ∃ n h wd c,
     shape_dict x !! Axis.N = Some n ∧ shape_dict x !! Axis.H = Some h ∧
     shape_dict x !! Axis.W = Some wd ∧ shape_dict x !! Axis.C = Some c ∧
     change_order (order x)
       (mkVariable [n; (h + 2 * p.1 + s.1 - k.1 - 1) / s.1 + 1;
                       (wd + 2 * p.2 + s.2 - k.2 - 1) / s.2 + 1; c] OrderNHWC)
     = Ok y).
Proof.
  cbv zeta. split.
  - intros (ow & Hrun).
    pose proof (Pooling2D_apply_Outcome nm ks st pd x log) as Hout.
    rewrite Hrun in Hout.
    inversion Hout as [| | |n h wd c y' Hn Hh Hw Hc Hs1 Hs2 Hy]; subst.
    split; [done|]. split; [done|]. by exists n, h, wd, c.
  - intros (Hs1 & Hs2 & n & h & wd & c & Hn & Hh & Hw & Hc & Hy).
    eexists. rewrite Pooling2D_apply_eq. cbv zeta.
    rewrite (exec_run _ x _ _ _ (Pooling2D_op_Ready nm _ _ _ x log) n h wd c)
      by done.
    cbv zeta. rewrite Hy. reflexivity.
Qed.

(** ** When the call fails *)

(** A call that fails leaves the operator as construction and
    [append_input] made it: the input attached, the parameters in place, no
    output and no attribute.  It adds at most the one warning to the
    console, and nothing when the failure is a missing axis or a zero
    stride.  When all four sizes are present and a stride is zero, the
    failure is [ZeroDivisionError]. *)
Theorem Pooling2D_failure_frame nm ks st pd x log e ow :
  Pooling2D_apply nm ks st pd x log = (Err e, ow) →
  ∃ w', ow = Some w' ∧
    self w' = with_input (Pooling2D_op nm (to_tuple ks) (to_tuple st)
                                       (to_tuple pd)) "x" x ∧
    inputs (self w') = {["x" := x]} ∧
    outputs (self w') = ∅ ∧ attributes (self w') = [] ∧
    (console w' = log ∨ console w' = log ++ [edge_warning]) ∧
    ((∃ a, a ∈ [Axis.N; Axis.H; Axis.W; Axis.C] ∧ shape_dict x !! a = None) →
     console w' = log) ∧
    ((to_tuple st).1 = 0 ∨ (to_tuple st).2 = 0 →
     console w' = log ∧
     ((∀ a, a ∈ [Axis.N; Axis.H; Axis.W; Axis.C] → is_Some (shape_dict x !! a)) →
      e = ZeroDivisionError)).
Proof.
  intros Hrun.
  pose proof (Pooling2D_apply_Outcome nm ks st pd x log) as Hout.
  rewrite Hrun in Hout.
  inversion Hout as [a Ha Hnone|Hs|n h wd c Hn Hh Hw Hc Hs1 Hs2 Hset|]; subst;
    eexists; (split; [reflexivity|]); simpl;
    (split; [reflexivity|]); (split; [apply insert_empty|]);
    (split; [reflexivity|]); (split; [reflexivity|]).
  - split; [by left|]. split; [done|]. intros _. split; [done|].
    intros Hsome. destruct (Hsome a Ha) as [m Hm]. congruence.
  - split; [by left|]. split; [done|]. done.
  - split.
    { unfold warned. destruct (edge_cond _ _ _ _ _); [by right|left].
      by rewrite app_nil_r. }
    split.
    + intros (a & Ha & Hnone). rewrite !elem_of_cons, elem_of_nil in Ha.
      destruct Ha as [->|[->|[->|[->|[]]]]]; congruence.
    + intros [?|?]; done.
Qed.

(** A zero stride in the width. *)
Lemma Pooling2D_failure_frame_witness :
  ∃ w', (Pooling2D_apply None (IntV 2) (TupleV 2 0) (IntV 0)
                         (mkVariable [1; 4; 4; 1] OrderNHWC) []).2 = Some w' ∧
        outputs (self w') = ∅ ∧ attributes (self w') = [] ∧ console w' = [].
Proof.
  destruct (Pooling2D_failure_frame None (IntV 2) (TupleV 2 0) (IntV 0)
              (mkVariable [1; 4; 4; 1] OrderNHWC) [] ZeroDivisionError
              (Pooling2D_apply None (IntV 2) (TupleV 2 0) (IntV 0)
                               (mkVariable [1; 4; 4; 1] OrderNHWC) []).2)
    as (w' & Hw' & _ & _ & Hout & Hattr & _ & _ & Hzero).
  - by vm_compute.
  - exists w'. split; [exact Hw'|]. split; [exact Hout|]. split; [exact Hattr|].
    apply Hzero. by right.
Defined.

(** ** The physical shape of the output *)

(** The size an axis has among four sizes given in N, H, W, C order. *)
Definition size_of (a : Axis.t) (n h wd c : Z) : Z :=
  match a with
  | Axis.N => n | Axis.H => h | Axis.W => wd | Axis.C => c
  | Axis.Ext _ => 0
  end.

Lemma shape_positions x n h wd c i a :
  NHWC_input x →
  shape_dict x !! Axis.N = Some n → shape_dict x !! Axis.H = Some h →
  shape_dict x !! Axis.W = Some wd → shape_dict x !! Axis.C = Some c →
  axes (order x) !! i = Some a → shape x !! i = Some (size_of a n h wd c).
Proof.
  intros Hx Hn Hh Hw Hc Hi.
  pose proof (shape_dict_own_order x (NHWC_input_wf x Hx)) as Hown.
  destruct (Forall2_lookup_l _ _ _ _ _ Hown Hi) as (m & Hm & Ha).
  rewrite Hm. f_equal.
  assert (a ∈ [Axis.N; Axis.H; Axis.W; Axis.C]) as Hin.
  { apply (proj1 (NHWC_input_axes x a Hx)). by eapply list_elem_of_lookup_2. }
  rewrite !elem_of_cons, elem_of_nil in Hin.
  destruct Hin as [->|[->|[->|[->|[]]]]]; simpl; congruence.
Qed.

Lemma reordered_positions x n h wd c y i a :
  NHWC_input x →
  change_order (order x) (mkVariable [n; h; wd; c] OrderNHWC) = Ok y →
  axes (order x) !! i = Some a → shape y !! i = Some (size_of a n h wd c).
Proof.
  intros Hx Hy Hi.
  pose proof (change_order_Ok _ _ _ Hy) as (_ & Hf & _).
  destruct (Forall2_lookup_l _ _ _ _ _ Hf Hi) as (m & Hm & Ha).
  rewrite Hm. f_equal.
  destruct (shape_dict_NHWC n h wd c) as (HN & HH & HW & HC).
  assert (a ∈ [Axis.N; Axis.H; Axis.W; Axis.C]) as Hin.
  { apply (proj1 (NHWC_input_axes x a Hx)). by eapply list_elem_of_lookup_2. }
  rewrite !elem_of_cons, elem_of_nil in Hin.
  destruct Hin as [->|[->|[->|[->|[]]]]]; simpl; congruence.
Qed.

Lemma reordered_length x n h wd c y :
  change_order (order x) (mkVariable [n; h; wd; c] OrderNHWC) = Ok y →
  length (shape y) = length (axes (order x)).
Proof.
  intros Hy. pose proof (change_order_Ok _ _ _ Hy) as (_ & Hf & _).
  symmetry. by eapply Forall2_length.
Qed.

(** The output keeps the input's physical layout: it has as many
    dimensions as the input, and at each position it holds the pooled
    height where the input has H, the pooled width where the input has W,
    and the input's own size where the input has N or C. *)
Theorem Pooling2D_physical_shape nm ks st pd x log h wd :
  NHWC_input x →
  shape_dict x !! Axis.H = Some h → shape_dict x !! Axis.W = Some wd →
  (to_tuple st).1 ≠ 0 → (to_tuple st).2 ≠ 0 →
  let k := to_tuple ks in let s := to_tuple st in let p := to_tuple pd in
  ∃ y w',
    Pooling2D_apply nm ks st pd x log = (Ok [y], Some w') ∧
    length (shape y) = length (shape x) ∧
    ∀ i a, axes (order x) !! i = Some a →
      (a = Axis.H →
       shape y !! i = Some ((h + 2 * p.1 + s.1 - k.1 - 1) / s.1 + 1)) ∧
      (a = Axis.W →
       shape y !! i = Some ((wd + 2 * p.2 + s.2 - k.2 - 1) / s.2 + 1)) ∧
      (a ≠ Axis.H → a ≠ Axis.W → shape y !! i = shape x !! i).
Proof.
  intros Hx Hh Hw Hs1 Hs2. cbv zeta.
  destruct (Pooling2D_apply_return nm ks st pd x log Hx Hs1 Hs2)
    as (n & h' & wd' & c & y & (Hn & Hh' & Hw' & Hc) & Hy & Hrun).
  assert (h' = h) as -> by congruence. assert (wd' = wd) as -> by congruence.
  exists y. eexists. split; [exact Hrun|]. split.
  - rewrite (reordered_length _ _ _ _ _ _ Hy). symmetry. apply Hx.
  - intros i a Hi.
    pose proof (reordered_positions _ _ _ _ _ _ _ _ Hx Hy Hi) as Hyi.
    pose proof (shape_positions _ _ _ _ _ _ _ Hx Hn Hh Hw Hc Hi) as Hxi.
    split; [by intros ->|]. split; [by intros ->|].
    intros HH HW. rewrite Hyi, Hxi. by destruct a.
Qed.

(** A CHWN input: the two middle positions are pooled, the outer two kept. *)
Lemma Pooling2D_physical_shape_witness :
  ∃ y w',
    Pooling2D_apply None (IntV 2) (IntV 2) (IntV 0)
                    (mkVariable [11; 8; 6; 7] OrderCHWN) [] = (Ok [y], Some w') ∧
    shape y = [11; 4; 3; 7].
Proof.
  destruct (Pooling2D_physical_shape None (IntV 2) (IntV 2) (IntV 0)
              (mkVariable [11; 8; 6; 7] OrderCHWN) [] 8 6)
    as (y & w' & Hrun & _).
  - split; [|reflexivity]. compute_done.
  - reflexivity.
  - reflexivity.
  - simpl. lia.
  - simpl. lia.
  - exists y, w'. split; [exact Hrun|].
    rewrite Pooling2D_apply_eq in Hrun. by injection Hrun as <- _.
Defined.

(** ** Pooling that changes nothing *)

(** With kernel 1, stride 1 and padding 0 in both dimensions the call
    returns a variable equal to its input, shape and order, and prints
    nothing. *)
Theorem Pooling2D_identity nm ks st pd x log :
  NHWC_input x →
  to_tuple ks = (1, 1) → to_tuple st = (1, 1) → to_tuple pd = (0, 0) →
  ∃ w', Pooling2D_apply nm ks st pd x log = (Ok [x], Some w') ∧
        console w' = log.
Proof.
  intros Hx Hk Hs Hp.
  destruct (Pooling2D_apply_return nm ks st pd x log Hx)
    as (n & h & wd & c & y & (Hn & Hh & Hw & Hc) & Hy & Hrun);
    [by rewrite Hs..|].
  rewrite Hk, Hs, Hp in Hy, Hrun. simpl in Hy.
  replace ((h + 2 * 0 + 1 - 1 - 1) / 1 + 1) with h in Hy
    by (rewrite Z.div_1_r; lia).
  replace ((wd + 2 * 0 + 1 - 1 - 1) / 1 + 1) with wd in Hy
    by (rewrite Z.div_1_r; lia).
  assert (shape y = shape x) as Hshape.
  { apply list_eq. intros i.
    destruct (axes (order x) !! i) as [a|] eqn:Hi.
    - rewrite (reordered_positions _ _ _ _ _ _ _ _ Hx Hy Hi).
      symmetry. by apply (shape_positions _ _ _ _ _ _ _ Hx Hn Hh Hw Hc Hi).
    - apply lookup_ge_None in Hi.
      pose proof (reordered_length _ _ _ _ _ _ Hy) as Hly.
      destruct Hx as [_ Hlx].
      rewrite !(proj2 (lookup_ge_None _ _)); [done|lia..]. }
  assert (y = x) as ->.
  { pose proof (change_order_Ok _ _ _ Hy) as (Ho & _).
    destruct y, x. simpl in *. by subst. }
  eexists. split; [exact Hrun|]. simpl.
  unfold warned, edge_cond. simpl.
  rewrite bool_decide_eq_false_2; [by rewrite app_nil_r|].
  rewrite !Z.mod_1_r. tauto.
Qed.

Lemma Pooling2D_identity_witness :
  ∃ w', Pooling2D_apply None (IntV 1) (TupleV 1 1) (IntV 0)
                        (mkVariable [5; 2; 9; 7] OrderHWNC) ["earlier"]
        = (Ok [mkVariable [5; 2; 9; 7] OrderHWNC], Some w') ∧
        console w' = ["earlier"].
Proof.
  apply (Pooling2D_identity None (IntV 1) (TupleV 1 1) (IntV 0)
           (mkVariable [5; 2; 9; 7] OrderHWNC) ["earlier"]).
  - split; [|reflexivity]. compute_done.
  - reflexivity.
  - reflexivity.
  - reflexivity.
Defined.

(** ** The arithmetic of the output size *)

Lemma ceil_div_bounds (a s : Z) :
  0 < s → a ≤ (a + s - 1) / s * s < a + s.
Proof.
  intros Hs.
  pose proof (Z.div_mod (a + s - 1) s ltac:(lia)) as Hdm.
  pose proof (Z.mod_pos_bound (a + s - 1) s Hs) as Hb.
  lia.
Qed.

Lemma ceil_div_exact (a s : Z) :
  0 < s → (a + s - 1) / s * s = a ↔ a mod s = 0.
Proof.
  intros Hs. pose proof (ceil_div_bounds a s Hs) as Hb. split.
  - intros Heq. rewrite <- Heq at 1. apply Z.mod_mul. lia.
  - intros Hm. pose proof (Z.div_mod a s ltac:(lia)) as Hdm. rewrite Hm in Hdm.
    assert ((a + s - 1) / s = a / s) as ->; [|lia].
    symmetry. apply (Z.div_unique _ _ _ (s - 1)); lia.
Qed.

Lemma snoc_neq {A} (l : list A) (a : A) : l ++ [a] ≠ l.
Proof.
  intros Heq. apply (f_equal length) in Heq.
  rewrite length_app in Heq. simpl in Heq. lia.
Qed.

(** With stride 1 in both dimensions the output height is
    [H + 2*PH - KH + 1], the width [W + 2*PW - KW + 1], and the warning is
    never printed. *)
Theorem Pooling2D_stride_one nm ks st pd x log h wd :
  NHWC_input x →
  shape_dict x !! Axis.H = Some h → shape_dict x !! Axis.W = Some wd →
  to_tuple st = (1, 1) →
  let k := to_tuple ks in let p := to_tuple pd in
  ∃ y w',
    Pooling2D_apply nm ks st pd x log = (Ok [y], Some w') ∧
    shape_dict y !! Axis.H = Some (h + 2 * p.1 - k.1 + 1) ∧
    shape_dict y !! Axis.W = Some (wd + 2 * p.2 - k.2 + 1) ∧
    console w' = log.
Proof.
  intros Hx Hh Hw Hs. cbv zeta.
  destruct (Pooling2D_apply_return nm ks st pd x log Hx)
    as (n & h' & wd' & c & y & (Hn & Hh' & Hw' & Hc) & Hy & Hrun);
    [by rewrite Hs..|].
  assert (h' = h) as -> by congruence. assert (wd' = wd) as -> by congruence.
  apply reordered_output in Hy as (_ & _ & HH & HW & _).
  rewrite Hs in HH, HW, Hrun. simpl in HH, HW.
  rewrite Z.div_1_r in HH, HW.
  exists y. eexists. split; [exact Hrun|].
  split; [rewrite HH; f_equal; lia|]. split; [rewrite HW; f_equal; lia|].
  simpl. unfold warned, edge_cond. simpl.
  rewrite bool_decide_eq_false_2; [by rewrite app_nil_r|].
  rewrite !Z.mod_1_r. tauto.
Qed.

Lemma Pooling2D_stride_one_witness :
  ∃ y w',
    Pooling2D_apply None (IntV 3) (IntV 1) (IntV 1)
                    (mkVariable [2; 8; 6; 5] OrderNHWC) [] = (Ok [y], Some w') ∧
    shape_dict y !! Axis.H = Some 8 ∧ shape_dict y !! Axis.W = Some 6 ∧
    console w' = [].
Proof.
  destruct (Pooling2D_stride_one None (IntV 3) (IntV 1) (IntV 1)
              (mkVariable [2; 8; 6; 5] OrderNHWC) [] 8 6)
    as (y & w' & Hrun & HH & HW & Hlog).
  - split; [|reflexivity]. compute_done.
  - reflexivity.
  - reflexivity.
  - reflexivity.
  - exists y, w'. split; [exact Hrun|]. split; [exact HH|].
    split; [exact HW|exact Hlog].
Defined.

(** For positive strides the output height [H2] is the number of windows
    needed to cover the padded input: the last window, which starts at
    [(H2 - 1) * SH], ends at or beyond [H + 2*PH], less than one stride
    beyond; the same holds in the width.  The console is left as it was
    exactly when the last window ends at the edge in both dimensions. *)
Theorem Pooling2D_window_cover nm ks st pd x log h wd :
  NHWC_input x →
  shape_dict x !! Axis.H = Some h → shape_dict x !! Axis.W = Some wd →
  0 < (to_tuple st).1 → 0 < (to_tuple st).2 →
  let k := to_tuple ks in let s := to_tuple st in let p := to_tuple pd in
  ∃ y w' h2 w2,
    Pooling2D_apply nm ks st pd x log = (Ok [y], Some w') ∧
    shape_dict y !! Axis.H = Some h2 ∧ shape_dict y !! Axis.W = Some w2 ∧
    h + 2 * p.1 ≤ (h2 - 1) * s.1 + k.1 < h + 2 * p.1 + s.1 ∧
    wd + 2 * p.2 ≤ (w2 - 1) * s.2 + k.2 < wd + 2 * p.2 + s.2 ∧
    (console w' = log ↔
     (h2 - 1) * s.1 + k.1 = h + 2 * p.1 ∧ (w2 - 1) * s.2 + k.2 = wd + 2 * p.2).
Proof.
  intros Hx Hh Hw Hs1 Hs2. cbv zeta.
  destruct (Pooling2D_apply_return nm ks st pd x log Hx)
    as (n & h' & wd' & c & y & (Hn & Hh' & Hw' & Hc) & Hy & Hrun); [lia..|].
  assert (h' = h) as -> by congruence. assert (wd' = wd) as -> by congruence.
  apply reordered_output in Hy as (_ & _ & HH & HW & _).
  set (k := to_tuple ks) in *. set (s := to_tuple st) in *.
  set (p := to_tuple pd) in *.
  exists y. eexists. eexists _, _. split; [exact Hrun|].
  split; [exact HH|]. split; [exact HW|].
  pose proof (ceil_div_bounds (h + 2 * p.1 - k.1) s.1 Hs1) as Hb1.
  pose proof (ceil_div_bounds (wd + 2 * p.2 - k.2) s.2 Hs2) as Hb2.
  pose proof (ceil_div_exact (h + 2 * p.1 - k.1) s.1 Hs1) as He1.
  pose proof (ceil_div_exact (wd + 2 * p.2 - k.2) s.2 Hs2) as He2.
  replace (h + 2 * p.1 - k.1 + s.1 - 1) with (h + 2 * p.1 + s.1 - k.1 - 1)
    in Hb1, He1 by lia.
  replace (wd + 2 * p.2 - k.2 + s.2 - 1) with (wd + 2 * p.2 + s.2 - k.2 - 1)
    in Hb2, He2 by lia.
  split; [lia|]. split; [lia|].
  simpl. unfold warned, edge_cond.
  case_bool_decide as Hc'.
  - split; [by intros ?%snoc_neq|]. intros [E1 E2]. exfalso.
    destruct Hc' as [Hc'|Hc']; apply Hc'; [apply He1|apply He2]; lia.
  - split; [|by rewrite app_nil_r]. intros _.
    assert ((h + 2 * p.1 - k.1) mod s.1 = 0) as E1%He1
      by (destruct (decide ((h + 2 * p.1 - k.1) mod s.1 = 0)); tauto).
    assert ((wd + 2 * p.2 - k.2) mod s.2 = 0) as E2%He2
      by (destruct (decide ((wd + 2 * p.2 - k.2) mod s.2 = 0)); tauto).
    lia.
Qed.

(** A 7x6 input under a 3x3 kernel with stride 2: three windows cover the
    height exactly, three windows overhang the width by one. *)
Lemma Pooling2D_window_cover_witness :
  ∃ y w',
    Pooling2D_apply None (IntV 3) (IntV 2) (IntV 0)
                    (mkVariable [1; 7; 6; 1] OrderNHWC) [] = (Ok [y], Some w') ∧
    shape_dict y !! Axis.H = Some 3 ∧ shape_dict y !! Axis.W = Some 3 ∧
    console w' = [edge_warning].
Proof.
  destruct (Pooling2D_window_cover None (IntV 3) (IntV 2) (IntV 0)
              (mkVariable [1; 7; 6; 1] OrderNHWC) [] 7 6)
    as (y & w' & h2 & w2 & Hrun & HH & HW & _).
  - split; [|reflexivity]. compute_done.
  - reflexivity.
  - reflexivity.
  - simpl. lia.
  - simpl. lia.
  - exists y, w'. split; [exact Hrun|].
    rewrite Pooling2D_apply_eq in Hrun. by injection Hrun as <- <-.
Defined.

(** For positive strides the output height is positive exactly when the
    kernel is shorter than the padded input plus one stride, and when the
    kernel fits in the padded input the output height lies between 1 and
    [H + 2*PH - KH + 1], the height for stride 1; the same holds in the
    width. *)
Theorem Pooling2D_extent_bounds nm ks st pd x log h wd :
  NHWC_input x →
  shape_dict x !! Axis.H = Some h → shape_dict x !! Axis.W = Some wd →
  0 < (to_tuple st).1 → 0 < (to_tuple st).2 →
  let k := to_tuple ks in let s := to_tuple st in let p := to_tuple pd in
  ∃ y w' h2 w2,
    Pooling2D_apply nm ks st pd x log = (Ok [y], Some w') ∧
    shape_dict y !! Axis.H = Some h2 ∧ shape_dict y !! Axis.W = Some w2 ∧
    (0 < h2 ↔ k.1 < h + 2 * p.1 + s.1) ∧
    (0 < w2 ↔ k.2 < wd + 2 * p.2 + s.2) ∧
    (k.1 ≤ h + 2 * p.1 → 1 ≤ h2 ≤ h + 2 * p.1 - k.1 + 1) ∧
    (k.2 ≤ wd + 2 * p.2 → 1 ≤ w2 ≤ wd + 2 * p.2 - k.2 + 1).
Proof.
  intros Hx Hh Hw Hs1 Hs2. cbv zeta.
  destruct (Pooling2D_apply_return nm ks st pd x log Hx)
    as (n & h' & wd' & c & y & (Hn & Hh' & Hw' & Hc) & Hy & Hrun); [lia..|].
  assert (h' = h) as -> by congruence. assert (wd' = wd) as -> by congruence.
  apply reordered_output in Hy as (_ & _ & HH & HW & _).
  set (k := to_tuple ks) in *. set (s := to_tuple st) in *.
  set (p := to_tuple pd) in *.
  exists y. eexists. eexists _, _. split; [exact Hrun|].
  split; [exact HH|]. split; [exact HW|].
  pose proof (ceil_div_bounds (h + 2 * p.1 - k.1) s.1 Hs1) as Hb1.
  pose proof (ceil_div_bounds (wd + 2 * p.2 - k.2) s.2 Hs2) as Hb2.
  replace (h + 2 * p.1 - k.1 + s.1 - 1) with (h + 2 * p.1 + s.1 - k.1 - 1)
    in Hb1 by lia.
  replace (wd + 2 * p.2 - k.2 + s.2 - 1) with (wd + 2 * p.2 + s.2 - k.2 - 1)
    in Hb2 by lia.
  set (qh := (h + 2 * p.1 + s.1 - k.1 - 1) / s.1) in *.
  set (qw := (wd + 2 * p.2 + s.2 - k.2 - 1) / s.2) in *.
  split_and!; nia.
Qed.

(** A 2x9 input under a 3x3 kernel with stride 2 and no padding: the
    kernel is taller than the input but shorter than input plus stride, so
    the height is 1; it fits the width, which comes out as 4. *)
Lemma Pooling2D_extent_bounds_witness :
  ∃ y w',
    Pooling2D_apply None (IntV 3) (IntV 2) (IntV 0)
                    (mkVariable [1; 2; 9; 1] OrderNHWC) [] = (Ok [y], Some w') ∧
    shape_dict y !! Axis.H = Some 1 ∧ shape_dict y !! Axis.W = Some 4.
Proof.
  destruct (Pooling2D_extent_bounds None (IntV 3) (IntV 2) (IntV 0)
              (mkVariable [1; 2; 9; 1] OrderNHWC) [] 2 9)
    as (y & w' & h2 & w2 & Hrun & HH & HW & _).
  - split; [|reflexivity]. compute_done.
  - reflexivity.
  - reflexivity.
  - simpl. lia.
  - simpl. lia.
  - exists y, w'. split; [exact Hrun|].
    rewrite Pooling2D_apply_eq in Hrun. by injection Hrun as <- _.
Defined.

(** * The test driver *)

Lemma Result_for_each_Ok {A} (l : list A) (body : A → Result unit) :
  Result_for_each l body = Ok tt ↔ ∀ a, a ∈ l → body a = Ok tt.
Proof.
  induction l as [|a l IH]; simpl.
  - split; [|done]. intros _ a Ha. by apply elem_of_nil in Ha.
  - destruct (body a) as [[]|e] eqn:Ha; simpl.
    + rewrite IH. split.
      * intros Hl b [->|Hb]%elem_of_cons; auto.
      * intros Hl b Hb. apply Hl. by right.
    + split; [done|]. intros Hl. specialize (Hl a (list_elem_of_here _ _)).
      congruence.
Qed.

Lemma assert_sizes_Ok (y : VariableT) (expected : gmap Axis.t Z) (l : list Axis.t) :
  assert_sizes y expected l = Ok tt ↔
  ∀ a, a ∈ l → ∃ m, shape_dict y !! a = Some m ∧ expected !! a = Some m.
Proof.
  induction l as [|a l IH]; simpl.
  - split; [|done]. intros _ a Ha. by apply elem_of_nil in Ha.
  - unfold getitem.
    destruct (shape_dict y !! a) as [got|] eqn:Hgot; simpl; cycle 1.
    { split; [done|]. intros Hl.
      destruct (Hl a (list_elem_of_here _ _)) as (m & ? & _). congruence. }
    destruct (expected !! a) as [want|] eqn:Hwant; simpl; cycle 1.
    { split; [done|]. intros Hl.
      destruct (Hl a (list_elem_of_here _ _)) as (m & _ & ?). congruence. }
    case_decide as Heq.
    + subst want. rewrite IH. split.
      * intros Hl b [->|Hb]%elem_of_cons; eauto.
      * intros Hl b Hb. apply Hl. by right.
    + split; [done|]. intros Hl.
      destruct (Hl a (list_elem_of_here _ _)) as (m & ? & ?). congruence.
Qed.

(** [main] passes exactly when, for each of the 36 pairs of a data order and
    a weight order, the operator returns one output and every axis of that
    output's order has the size that [expected_shape_dict] gives for it.
    Sizes of axes outside the output's order are not compared. *)
Theorem main_passes_iff k s p n h1 w1 c1 c2 (expected_shape_dict : gmap Axis.t Z) :
  main k s p n h1 w1 c1 c2 expected_shape_dict = Ok tt ↔
  ∀ order_x order_w, order_x ∈ orders → order_w ∈ orders →
    ∃ y, main_output k s p n h1 w1 c1 c2 order_x order_w = Ok y ∧
         ∀ a, a ∈ axes (order y) →
              ∃ m, shape_dict y !! a = Some m ∧ expected_shape_dict !! a = Some m.
Proof.
  unfold main. rewrite Result_for_each_Ok. split.
  - intros Hall ox ow Hox How.
    specialize (Hall ox Hox). rewrite Result_for_each_Ok in Hall.
    specialize (Hall ow How).
    destruct (main_output _ _ _ _ _ _ _ _ ox ow) as [y|e]; [|done].
    exists y. split; [done|]. by apply assert_sizes_Ok.
  - intros Hall ox Hox. rewrite Result_for_each_Ok. intros ow How.
    destruct (Hall ox ow Hox How) as (y & -> & Hy). simpl.
    by apply assert_sizes_Ok.
Qed.

(** An expected dictionary with a wrong height makes the driver stop at its
    first pair of orders with a failed assertion; one with a size for a fifth
    axis besides the right four passes. *)
Example main_wrong_height :
  main (IntV 3) (IntV 2) (IntV 1) 2 3 4 6 3 (shape_dict_of 2 6 7 3)
  = Err AssertionError ∧
  main (IntV 3) (IntV 2) (IntV 1) 2 3 4 6 3
       (<[Axis.Ext 0 := 9]> (shape_dict_of 2 5 7 3))
  = Ok tt.
Proof. by vm_compute. Qed.

Lemma Variable_new_Ok (ns : list Z) (o : Order) :
  length ns = length (axes o) → Variable_new ns o = Ok (mkVariable ns o).
Proof. intros Hlen. unfold Variable_new. by rewrite decide_True. Qed.

Lemma Pooling2D_op_ksize nm k s p log :
  ksize (mkWorld (Pooling2D_op nm k s p) log)
  = (Ok k, mkWorld (Pooling2D_op nm k s p) log).
Proof.
  unfold ksize, get_parameter. erewrite M_bind_Ok by reflexivity. simpl.
  rewrite !lookup_insert_ne by done. by rewrite lookup_insert_eq.
Qed.

(** Re-ordering a four-dimensional NHWC or CHWN variable to one of the six
    orders succeeds. *)
Lemma change_order_orders o o0 ns :
  o ∈ orders → o0 ∈ orders → length ns = 4%nat →
  ∃ v, change_order o (mkVariable ns o0) = Ok v ∧ NHWC_input v ∧ order v = o ∧
       shape_dict v = shape_dict (mkVariable ns o0).
Proof.
  intros Ho Ho0 Hlen.
  pose proof (orders_NHWC o ns Ho Hlen) as Hin.
  pose proof (orders_NHWC o0 ns Ho0 Hlen) as Hin0.
  destruct (change_order_is_Ok o (mkVariable ns o0)) as [v Hv].
  - apply Hin0.
  - intros a Ha. apply (NHWC_input_axes _ a Hin0) in Ha.
    by apply (NHWC_input_axes _ a Hin).
  - intros a Ha. apply (NHWC_input_axes _ a Hin) in Ha.
    by apply (NHWC_input_axes _ a Hin0).
  - exists v. split; [done|].
    pose proof (change_order_Ok _ _ _ Hv) as (Hord & Hf & _).
    split; [|split; [done|by eapply change_order_shape_dict]].
    split.
    + rewrite Hord. apply Hin.
    + rewrite Hord. symmetry. by eapply Forall2_length.
Qed.

Lemma main_output_Ok k s p n h1 w1 c1 c2 order_x order_w :
  valid_parameters (to_tuple k) (to_tuple s) (to_tuple p) →
  0 < (h1 - 1) * (to_tuple s).1 - 2 * (to_tuple p).1 + (to_tuple k).1 →
  0 < (w1 - 1) * (to_tuple s).2 - 2 * (to_tuple p).2 + (to_tuple k).2 →
  order_x ∈ orders → order_w ∈ orders →
  ∃ y, main_output k s p n h1 w1 c1 c2 order_x order_w = Ok y ∧
       order y = order_x ∧
       shape_dict y !! Axis.N = Some n ∧
       shape_dict y !! Axis.H
       = Some ((h1 - 1) * (to_tuple s).1 - 2 * (to_tuple p).1 + (to_tuple k).1) ∧
       shape_dict y !! Axis.W
       = Some ((w1 - 1) * (to_tuple s).2 - 2 * (to_tuple p).2 + (to_tuple k).2) ∧
       shape_dict y !! Axis.C = Some c2.
Proof.
  intros Hv HH2 HW2 Hox How. unfold main_output.
  rewrite Deconvolution2D_init_eq by done. cbn [Result_bind].
  rewrite Variable_new_Ok by done. cbn [Result_bind].
  assert (OrderNHWC ∈ orders) as HNHWC by (unfold orders; rewrite !elem_of_cons; tauto).
  assert (OrderCHWN ∈ orders) as HCHWN by (unfold orders; rewrite !elem_of_cons; tauto).
  destruct (change_order_orders order_x OrderNHWC [n; h1; w1; c1])
    as (x & -> & Hx & Hxo & Hxd); [done..|]. cbn [Result_bind].
  rewrite Pooling2D_op_ksize. cbn [fst Result_bind].
  rewrite Variable_new_Ok by done. cbn [Result_bind].
  destruct (change_order_orders order_w OrderCHWN
              [c1; (to_tuple k).1; (to_tuple k).2; c2])
    as (w & -> & Hw & Hwo & Hwd); [done..|]. cbn [Result_bind].
  destruct (shape_dict_NHWC n h1 w1 c1) as (HN & HH & HW & _).
  destruct (Deconvolution2D_call_return None (to_tuple k) (to_tuple s)
              (to_tuple p) x w [] n h1 w1 c2)
    as (y & w' & -> & Hyo & Hy); [done|by rewrite Hxd..| |done|done|].
  { rewrite Hwd. unfold shape_dict. simpl.
    rewrite !lookup_insert_ne by done. apply lookup_insert_eq. }
  exists y. split; [done|]. split; [congruence|done].
Qed.

(** [main] passes for every valid kernel, stride and padding (positive
    kernel and stride, non-negative padding) and for all sizes [n], [h1],
    [w1], [c1], [c2] for which the two computed extents are positive, when
    the expected dictionary holds [n] for N, [(h1 - 1) * SH - 2 * PH + KH]
    for H, [(w1 - 1) * SW - 2 * PW + KW] for W and [c2] for C: the five
    scenarios of the file are instances. *)
Theorem main_passes_formula k s p n h1 w1 c1 c2 :
  valid_parameters (to_tuple k) (to_tuple s) (to_tuple p) →
  0 < (h1 - 1) * (to_tuple s).1 - 2 * (to_tuple p).1 + (to_tuple k).1 →
  0 < (w1 - 1) * (to_tuple s).2 - 2 * (to_tuple p).2 + (to_tuple k).2 →
  main k s p n h1 w1 c1 c2
    (shape_dict_of n
       ((h1 - 1) * (to_tuple s).1 - 2 * (to_tuple p).1 + (to_tuple k).1)
       ((w1 - 1) * (to_tuple s).2 - 2 * (to_tuple p).2 + (to_tuple k).2)
       c2)
  = Ok tt.
Proof.
  intros Hv HH2 HW2.
  unfold main. apply Result_for_each_Ok. intros ox Hox.
  apply Result_for_each_Ok. intros ow How.
  destruct (main_output_Ok k s p n h1 w1 c1 c2 ox ow Hv HH2 HW2 Hox How)
    as (y & -> & Hyo & HN & HH & HW & HC). simpl.
  apply assert_sizes_Ok. intros a Ha. rewrite Hyo in Ha.
  assert (a ∈ [Axis.N; Axis.H; Axis.W; Axis.C]) as Hin.
  { apply (NHWC_input_axes (mkVariable [0; 0; 0; 0] ox) a); [|done].
    by apply orders_NHWC. }
  unfold shape_dict_of. rewrite !elem_of_cons, elem_of_nil in Hin.
  destruct Hin as [->|[->|[->|[->|[]]]]]; eexists; (split; [eassumption|]).
  - rewrite !lookup_insert_ne by done. apply lookup_insert_eq.
  - rewrite !lookup_insert_ne by done. apply lookup_insert_eq.
  - rewrite lookup_insert_ne by done. apply lookup_insert_eq.
  - apply lookup_insert_eq.
Qed.

(** Kernel 4, stride 3, padding (2, 1) on an 8x5 input with 7 input and 9
    output channels: none of the file's scenarios, extents 21 and 14. *)
Lemma main_passes_formula_witness :
  main (IntV 4) (IntV 3) (TupleV 2 1) 2 8 5 7 9 (shape_dict_of 2 21 14 9) = Ok tt.
Proof.
  apply (main_passes_formula (IntV 4) (IntV 3) (TupleV 2 1) 2 8 5 7 9).
  - unfold valid_parameters. simpl. lia.
  - simpl. lia.
  - simpl. lia.
Defined.

(** With an invalid parameter the driver stops at the construction of the
    operator, and with non-positive extents at the call. *)
Example main_rejected :
  main (IntV 0) (IntV 1) (IntV 0) 2 3 4 6 3 (shape_dict_of 2 2 3 3)
  = Err InvalidParameterError ∧
  main (IntV 1) (IntV 1) (IntV 1) 2 1 1 6 3 (shape_dict_of 2 (-1) (-1) 3)
  = Err IncompatibleShapeError.
Proof. by vm_compute. Qed.

(** * What a successful call leaves behind *)

(** A call that returns, returns exactly one variable [y], of the input's
    order; the operator then has its name and its three parameters as
    constructed, the input under [x] and nothing else as input, [y] under
    [y] and nothing else as output, and one [Tensorwise] attribute for each
    axis of the input's order other than H and W and no other attribute; the
    properties still read the constructed values. *)
Theorem Pooling2D_success_frame nm ks st pd x log ys ow :
  Pooling2D_apply nm ks st pd x log = (Ok ys, ow) →
  ∃ y w', ys = [y] ∧ ow = Some w' ∧ order y = order x ∧
    name (self w') = nm ∧
    parameters (self w')
    = parameters (Pooling2D_op nm (to_tuple ks) (to_tuple st) (to_tuple pd)) ∧
    inputs (self w') = {["x" := x]} ∧
    outputs (self w') = {["y" := y]} ∧
    attributes (self w') = Tensorwise <$> tensorwise_axes (axes (order x)) ∧
    KH w' = (Ok (to_tuple ks).1, w') ∧ KW w' = (Ok (to_tuple ks).2, w') ∧
    SH w' = (Ok (to_tuple st).1, w') ∧ SW w' = (Ok (to_tuple st).2, w') ∧
    PH w' = (Ok (to_tuple pd).1, w') ∧ PW w' = (Ok (to_tuple pd).2, w').
Proof.
  intros Hrun.
  pose proof (Pooling2D_apply_Outcome nm ks st pd x log) as Hout.
  rewrite Hrun in Hout.
  inversion Hout as [| | |n h wd c y Hn Hh Hw Hc Hs1 Hs2 Hy]; subst.
  exists y. eexists. split; [done|]. split; [done|].
  split; [by apply change_order_Ok in Hy as [? _]|].
  set (w' := mkWorld _ _).
  assert (Ready w' x (to_tuple ks) (to_tuple st) (to_tuple pd)) as Hready.
  { split; simpl.
    - apply lookup_insert_eq.
    - rewrite !lookup_insert_ne by done. apply lookup_insert_eq.
    - rewrite lookup_insert_ne by done. apply lookup_insert_eq.
    - apply lookup_insert_eq. }
  split; [done|]. split; [done|]. split; [apply insert_empty|].
  split; [apply insert_empty|]. split; [done|].
  split_and!.
  - by eapply KH_run.
  - by eapply KW_run.
  - by eapply SH_run.
  - by eapply SW_run.
  - by eapply PH_run.
  - by eapply PW_run.
Qed.

Lemma Pooling2D_success_frame_witness :
  ∃ y w',
    Pooling2D_apply (Some "pool") (IntV 2) (IntV 2) (IntV 0)
                    (mkVariable [2; 5; 4; 3] OrderNCHW) [] = (Ok [y], Some w') ∧
    name (self w') = Some "pool" ∧
    outputs (self w') = {["y" := y]} ∧
    SH w' = (Ok 2, w').
Proof.
  destruct (Pooling2D_success_frame (Some "pool") (IntV 2) (IntV 2) (IntV 0)
              (mkVariable [2; 5; 4; 3] OrderNCHW) []
              [mkVariable [2; 5; 2; 2] OrderNCHW]
              (Pooling2D_apply (Some "pool") (IntV 2) (IntV 2) (IntV 0)
                               (mkVariable [2; 5; 4; 3] OrderNCHW) []).2)
    as (y & w' & Hys & How & _ & Hname & _ & _ & Hout & _ & _ & _ & HSH & _).
  - by vm_compute.
  - exists y, w'. split.
    + injection Hys as <-. rewrite <- How. by vm_compute.
    + split; [exact Hname|]. split; [exact Hout|exact HSH].
Defined.
